(** * datehere: the signaling relay of [server.js]

    A shallow embedding of the Socket.IO signaling server and the
    properties of its presence registry and message relay.

    [server.js] exists in three configurations:
    - the _login_ configuration (module [Login]): a global object [users]
      maps a caller-supplied user id to a socket id, and the events
      [offer], [answer], [ice-candidate] and [chat-message] are routed
      through it;
    - the _discovery_ configuration (module [Discovery]): peers are known by
      their socket id, a new socket is told who is present, and a single
      [signal] event is forwarded to the socket named in its payload;
    - the _relay_ configuration (module [Relay]): the discovery
      configuration without [users-present], with [socket.to].

    Conventions of the embedding:
    - a handler is a function from the server state to a [result]: either
      the new state with the events it delivered, or [Throw] when the
      JavaScript code raises a [TypeError];
    - [console.log] writes to the server's own standard output and what it
      prints is left out, but the conversions to string that a template
      literal makes are kept, since they can raise;
    - the object [users] is a plain object: its own properties are a finite
      map, reads fall back on the properties of [Object.prototype], and
      [Object.keys(users)] is the set of its own keys (the order of the
      array is not modelled). *)

From stdpp Require Import gmap strings list fin_maps pretty.

(** ** JavaScript values *)

Module JS.

(** An integer of magnitude below 2^53: a number that JavaScript holds
    exactly and prints in plain decimal. *)
Record safe_int : Type := SafeInt {
  int_val : Z;
  int_safe : Is_true (Z.abs int_val <? 2 ^ 53)%Z;
}.

(** The values a Socket.IO event can carry, as far as the handlers look at
    them: what [JSON.parse] gives, and [undefined] for a missing argument.
    Other numbers, arrays, functions and binary attachments are outside the
    model.  [JObj props] is a plain object given by its own properties; the
    first binding of a name is the value of the property. *)
#[warnings="-register-all"]
Inductive jsval : Type :=
  | JUndefined
  | JNull
  | JBool (b : bool)
  | JNum (n : safe_int)
  | JStr (s : string)
  | JObj (props : list (string * jsval)).

(** [ToBoolean]: what [if (v)] and [!v] test. *)
Definition truthy (v : jsval) : bool :=
  match v with
  | JUndefined | JNull => false
  | JBool b => b
  | JNum n => negb (int_val n =? 0)%Z
  | JStr s => negb (String.eqb s "")
  | JObj _ => true
  end.

(** The outcome of a computation that can raise. *)
Inductive result (A : Type) : Type :=
  | Ok (a : A)
  | Throw.
Arguments Ok {A} a.
Arguments Throw {A}.

#[global] Instance result_bind : MBind result := λ A B k r,
  match r with
  | Ok a => k a
  | Throw => Throw
  end.

(** The object has an own property of that name. *)
Definition has_own (props : list (string * jsval)) (name : string) : bool :=
  existsb (λ kv, String.eqb kv.1 name) props.

(** [ToString], which is also [ToPropertyKey] for these values: the
    conversion of [`${v}`] and the key under which [obj[v]] reads and
    writes.  A plain object prints through [toString]: the inherited one
    gives ["[object Object]"]; an own property [toString] hides it, and as
    no value of the model is a function the conversion raises a
    [TypeError]. *)
Definition to_key (v : jsval) : result string :=
  match v with
  | JUndefined => Ok "undefined"
  | JNull => Ok "null"
  | JBool true => Ok "true"
  | JBool false => Ok "false"
  | JNum n => Ok (pretty (int_val n))
  | JStr s => Ok s
  | JObj props =>
      if has_own props "toString" then Throw else Ok "[object Object]"
  end.

(** The own property [name] of a property list, [undefined] when missing.
    The handlers ask for names that [Object.prototype] does not have. *)
Fixpoint prop_of (props : list (string * jsval)) (name : string) : jsval :=
  match props with
  | [] => JUndefined
  | (k, v) :: rest => if String.eqb k name then v else prop_of rest name
  end.

(** One name of a destructuring pattern [const { name } = data].
    Destructuring [undefined] or [null] raises a [TypeError]; a primitive
    has none of the names the handlers ask for. *)
Definition destructure (data : jsval) (name : string) : result jsval :=
  match data with
  | JUndefined | JNull => Throw
  | JObj props => Ok (prop_of props name)
  | JBool _ | JNum _ | JStr _ => Ok JUndefined
  end.

End JS.

Export JS.

(** The number [7]. *)
Abbreviation seven := (JNum {| int_val := 7; int_safe := I |}).

(** ** The registry: the object [users]

    [let users = {}] and the three statements of the login configuration
    that touch it, on property keys.  The values written are socket ids. *)

Module Registry.

(** A socket id, as Socket.IO hands it out. *)
Abbreviation sid := string.

(** The property names of [Object.prototype].  Each reads as a function,
    [__proto__] as [Object.prototype] itself: truthy values that are not
    strings. *)
Definition object_prototype : list string :=
  ["constructor"; "__defineGetter__"; "__defineSetter__"; "hasOwnProperty";
   "__lookupGetter__"; "__lookupSetter__"; "isPrototypeOf";
   "propertyIsEnumerable"; "toString"; "valueOf"; "__proto__";
   "toLocaleString"].

(** [users[id] = conn].  The key [__proto__] is the setter of
    [Object.prototype], which ignores a string: no property is created. *)
Definition register (id : string) (conn : sid) (users : gmap string sid)
  : gmap string sid :=
  if String.eqb id "__proto__" then users else <[id := conn]> users.

(** [delete users[id]]: removes an own property. *)
Definition unregister (id : string) (users : gmap string sid)
  : gmap string sid := delete id users.

(** What [users[id]] reads. *)
Inductive slot : Type :=
  | Own (conn : sid)
  | Inherited
  | Absent.

(** [users[id]]: the own property, else the property of
    [Object.prototype], else [undefined]. *)
Definition lookup (id : string) (users : gmap string sid) : slot :=
  match users !! id with
  | Some conn => Own conn
  | None => if bool_decide (id ∈ object_prototype) then Inherited else Absent
  end.

(** [if (users[id])] *)
Definition slot_truthy (s : slot) : bool :=
  match s with
  | Own conn => negb (String.eqb conn "")
  | Inherited => true
  | Absent => false
  end.

(** [Object.keys(users)] *)
Definition snapshotIds (users : gmap string sid) : gset string := dom users.

(** The entries of the snapshot, as [(id, connection)] pairs. *)
Definition entries (users : gmap string sid) : list (string * sid) :=
  map_to_list users.

Inductive op : Type :=
  | Register (id : string) (conn : sid)
  | Unregister (id : string).

Definition apply (users : gmap string sid) (o : op) : gmap string sid :=
  match o with
  | Register id conn => register id conn users
  | Unregister id => unregister id users
  end.

(** A sequence of operations, oldest first. *)
Definition run (ops : list op) (users : gmap string sid) : gmap string sid :=
  foldl apply users ops.

Definition names (id : string) (o : op) : Prop :=
  match o with
  | Register i _ => i = id
  | Unregister i => i = id
  end.

(** No operation of [ops] names [id]. *)
Definition untouched (id : string) (ops : list op) : Prop :=
  Forall (λ o, ¬ names id o) ops.

(** C2 as stated, from the empty registry: [lookup id] is the connection
    of the most recent [register id _], and absent when the most recent
    operation on [id] is an [unregister] or there is none. *)
Definition lookup_follows_most_recent (id : string) (ops : list op) : Prop :=
  (∀ before conn after,
      ops = before ++ Register id conn :: after → untouched id after →
      lookup id (run ops ∅) = Own conn)
  ∧ (∀ before after,
      ops = before ++ Unregister id :: after → untouched id after →
      lookup id (run ops ∅) = Absent)
  ∧ (untouched id ops → lookup id (run ops ∅) = Absent).

End Registry.

(** ** Socket.IO: the emit primitives the handlers call

    Socket.IO is the environment of the program.  Every connected socket is
    in the room named by its own id, and no handler of [server.js] joins
    another room, so a room holds at most one socket.  By the time the
    [disconnect] handler of a socket runs, the socket has left its room and
    the set of connected sockets.  A client packet whose event name is
    reserved is refused and its connection closed. *)

Module SocketIO.
Import Registry.

(** The argument of an emitted event: a value, or an array of ids (from
    [Object.keys] or from the keys of [io.sockets.sockets]) as the set of
    its elements. *)
Inductive payload : Type :=
  | PVal (v : jsval)
  | PIds (ids : gset string).

(** One event arriving at one socket. *)
Record delivery : Type := Deliver {
  recipient : sid;
  event : string;
  argument : payload;
}.

(** [io.emit(ev, arg)]: to every connected socket. *)
Definition io_emit (connected : gset sid) (ev : string) (arg : payload)
  : list delivery := (λ c, Deliver c ev arg) <$> elements connected.

(** [socket.broadcast.emit(ev, arg)]: to every connected socket but
    [socket]. *)
Definition broadcast_emit (connected : gset sid) (socket : sid)
    (ev : string) (arg : payload) : list delivery :=
  io_emit (connected ∖ {[socket]}) ev arg.

(** [socket.emit(ev, arg)], for a connected [socket]. *)
Definition socket_emit (socket : sid) (ev : string) (arg : payload)
  : list delivery := [Deliver socket ev arg].

(** [io.to(room).emit(ev, arg)]: to the sockets in [room].  A room that is
    not the id of a connected socket is empty. *)
Definition io_to_emit (connected : gset sid) (room : jsval)
    (ev : string) (arg : payload) : list delivery :=
  match room with
  | JStr r => if decide (r ∈ connected) then [Deliver r ev arg] else []
  | _ => []
  end.

(** The event names a client packet may not bear. *)
Definition reserved_events : list string :=
  ["connect"; "connect_error"; "disconnect"; "disconnecting";
   "newListener"; "removeListener"].

Definition reserved (ev : string) : bool :=
  bool_decide (ev ∈ reserved_events).

(** What [c] receives, in order. *)
Definition inbox (c : sid) (ds : list delivery) : list delivery :=
  filter (λ d, recipient d = c) ds.

(** The sockets that receive something. *)
Definition recipients (ds : list delivery) : gset sid :=
  list_to_set (recipient <$> ds).

(** The value or array [arg] names the id [id]. *)
Definition mentions (id : string) (arg : payload) : Prop :=
  match arg with
  | PVal v => v = JStr id
  | PIds ids => id ∈ ids
  end.

End SocketIO.

(** ** The login configuration *)

Module Login.
Import Registry SocketIO.

(** The mutable state: the sockets Socket.IO holds as connected, the global
    [users], and the property [userId] of each socket object (no binding:
    the property was never set and reads as [undefined]). *)
Record server : Type := Server {
  connected : gset sid;
  users : gmap string sid;
  userId : gmap sid jsval;
}.

Definition init : server :=
  {| connected := ∅; users := ∅; userId := ∅ |}.

(** [socket.userId] *)
Definition userId_of (σ : server) (socket : sid) : jsval :=
  default JUndefined (userId σ !! socket).

Abbreviation outcome := (result (server * list delivery)).

(** Socket.IO accepts a connection: a new socket object, without a
    [userId] property, enters the set of connected sockets. *)
Definition accept (socket : sid) (σ : server) : server :=
  {| connected := {[socket]} ∪ connected σ;
     users := users σ;
     userId := delete socket (userId σ) |}.

(** [io.on('connection', (socket) => ...)]: logs the socket id and
    installs the handlers below. *)
Definition on_connection (socket : sid) (σ : server) : outcome :=
  Ok (σ, []).

(** [socket.on('login', (userId) => ...)].  The log of the id and the
    write [users[userId]] make the same conversion, the log first. *)
Definition on_login (socket : sid) (uid : jsval) (σ : server) : outcome :=
  if negb (truthy uid) then Ok (σ, [])
  else
    key ← to_key uid;
    let users' := register key socket (users σ) in
    Ok ({| connected := connected σ;
           users := users';
           userId := <[socket := uid]> (userId σ) |},
        io_emit (connected σ) "user-list" (PIds (snapshotIds users'))).

(** The four routed events. *)
Inductive routed : Type := Offer | Answer | IceCandidate | ChatMessage.

Definition event_name (k : routed) : string :=
  match k with
  | Offer => "offer"
  | Answer => "answer"
  | IceCandidate => "ice-candidate"
  | ChatMessage => "chat-message"
  end.

(** The name of the blob in the payload: [offer], [answer], [candidate],
    [message]. *)
Definition blob_field (k : routed) : string :=
  match k with
  | Offer => "offer"
  | Answer => "answer"
  | IceCandidate => "candidate"
  | ChatMessage => "message"
  end.

(** The handler logs [`Forwarding ... from ${socket.userId} to
    ${targetUserId}`] before it emits; the log of [ice-candidate] is
    commented out. *)
Definition logs_forwarding (k : routed) : bool :=
  match k with
  | IceCandidate => false
  | Offer | Answer | ChatMessage => true
  end.

(** The object [{ fromUserId: socket.userId, blob }] that is forwarded. *)
Definition forwarded (k : routed) (from blob : jsval) : payload :=
  PVal (JObj [("fromUserId", from); (blob_field k, blob)]).

(** The common body of the handlers of [offer], [answer], [ice-candidate]
    and [chat-message], which differ in the names and the logs only:
    [const { targetUserId, blob } = data;
     const targetSocketId = users[targetUserId];
     if (targetSocketId) {
       console.log(`Forwarding ... from ${socket.userId} to ${targetUserId}`);
       io.to(targetSocketId).emit(ev, { fromUserId: socket.userId, blob }) }].
    A property inherited from [Object.prototype] is truthy and names a room
    no socket is in.  The log of the other branch prints [targetUserId],
    which was converted already. *)
Definition on_routed (k : routed) (socket : sid) (data : jsval) (σ : server)
  : outcome :=
  targetUserId ← destructure data "targetUserId";
  blob ← destructure data (blob_field k);
  key ← to_key targetUserId;
  let targetSocketId := lookup key (users σ) in
  if slot_truthy targetSocketId then
    _ ← (if logs_forwarding k then to_key (userId_of σ socket) else Ok "");
    match targetSocketId with
    | Own conn =>
        Ok (σ, io_to_emit (connected σ) (JStr conn) (event_name k)
                 (forwarded k (userId_of σ socket) blob))
    | Inherited | Absent => Ok (σ, [])
    end
  else Ok (σ, []).

(** [socket.on('offer', ...)] *)
Definition on_offer := on_routed Offer.
(** [socket.on('answer', ...)] *)
Definition on_answer := on_routed Answer.
(** [socket.on('ice-candidate', ...)] *)
Definition on_ice_candidate := on_routed IceCandidate.
(** [socket.on('chat-message', ...)] *)
Definition on_chat_message := on_routed ChatMessage.

(** Socket.IO closes a connection: the socket leaves the connected set
    before its [disconnect] handler runs. *)
Definition close (socket : sid) (σ : server) : server :=
  {| connected := connected σ ∖ {[socket]};
     users := users σ;
     userId := userId σ |}.

(** [socket.on('disconnect', () => ...)].  The log of [socket.userId] and
    the [delete] make the same conversion. *)
Definition on_disconnect (socket : sid) (σ : server) : outcome :=
  if truthy (userId_of σ socket) then
    key ← to_key (userId_of σ socket);
    let users' := unregister key (users σ) in
    Ok ({| connected := connected σ;
           users := users';
           userId := userId σ |},
        io_emit (connected σ) "user-list" (PIds (snapshotIds users')))
  else Ok (σ, []).

Definition connect (socket : sid) (σ : server) : outcome :=
  on_connection socket (accept socket σ).

Definition disconnect (socket : sid) (σ : server) : outcome :=
  on_disconnect socket (close socket σ).

(** What the server reacts to. *)
Inductive input : Type :=
  | Connect (socket : sid)
  | Message (socket : sid) (ev : string) (arg : jsval)
  | Disconnect (socket : sid).

(** A client packet: a reserved name closes the connection, which runs the
    [disconnect] handler; otherwise the handler installed for the name
    runs, and other names have none. *)
Definition handle (socket : sid) (ev : string) (arg : jsval) (σ : server)
  : outcome :=
  if reserved ev then disconnect socket σ
  else if String.eqb ev "login" then on_login socket arg σ
  else if String.eqb ev "offer" then on_offer socket arg σ
  else if String.eqb ev "answer" then on_answer socket arg σ
  else if String.eqb ev "ice-candidate" then on_ice_candidate socket arg σ
  else if String.eqb ev "chat-message" then on_chat_message socket arg σ
  else Ok (σ, []).

Definition step (i : input) (σ : server) : outcome :=
  match i with
  | Connect socket => connect socket σ
  | Message socket ev arg => handle socket ev arg σ
  | Disconnect socket => disconnect socket σ
  end.

(** What Socket.IO guarantees of its inputs: the id of a new socket is not
    empty and not the id of a connected socket; messages and closes come
    from connected sockets. *)
Definition enabled (σ : server) (i : input) : Prop :=
  match i with
  | Connect socket => socket ≠ "" ∧ socket ∉ connected σ
  | Message socket _ _ => socket ∈ connected σ
  | Disconnect socket => socket ∈ connected σ
  end.

(** The states of a running server. *)
Inductive reachable : server → Prop :=
  | reachable_init : reachable init
  | reachable_step σ i σ' ds :
      reachable σ → enabled σ i → step i σ = Ok (σ', ds) → reachable σ'.

(** A run: the inputs in order, with everything delivered on the way. *)
Fixpoint run (inputs : list input) (σ : server) : outcome :=
  match inputs with
  | [] => Ok (σ, [])
  | i :: rest =>
      '(σ1, ds1) ← step i σ;
      '(σ2, ds2) ← run rest σ1;
      Ok (σ2, ds1 ++ ds2)
  end.

(** Every input of the run is one Socket.IO can produce. *)
Fixpoint run_enabled (inputs : list input) (σ : server) : Prop :=
  match inputs with
  | [] => True
  | i :: rest =>
      enabled σ i ∧
      match step i σ with
      | Ok (σ1, _) => run_enabled rest σ1
      | Throw => True
      end
  end.

(** The state a run ends in (the state it started from, had it thrown). *)
Definition exec (inputs : list input) (σ : server) : server :=
  match run inputs σ with
  | Ok (σ', _) => σ'
  | Throw => σ
  end.

(** What holds of every state of a running server: no socket id is empty,
    in the connected set or in [users], and a [userId] property that was
    set is truthy and converts to a key. *)
Definition wf (σ : server) : Prop :=
  ("" ∉ connected σ)
  ∧ (∀ id c, users σ !! id = Some c → c ≠ "")
  ∧ (∀ s v, userId σ !! s = Some v →
       truthy v = true ∧ ∃ key, to_key v = Ok key).

(** The protocol state of a connection. *)
Inductive phase : Type := UNANNOUNCED | ANNOUNCED | CLOSED.

Definition phase_of (σ : server) (socket : sid) : phase :=
  if decide (socket ∈ connected σ) then
    if truthy (userId_of σ socket) then ANNOUNCED else UNANNOUNCED
  else CLOSED.

End Login.

(** ** The discovery configuration *)

Module Discovery.
Import Registry SocketIO.

(** The only state is the set of connected sockets,
    [io.sockets.sockets]. *)
Record server : Type := Server {
  connected : gset sid;
}.

Abbreviation outcome := (result (server * list delivery)).

(** Socket.IO accepts a connection. *)
Definition accept (socket : sid) (σ : server) : server :=
  {| connected := {[socket]} ∪ connected σ |}.

(** [io.on('connection', (socket) => ...)]: the ids of the other sockets
    go to the new socket, and [user-joined] to everyone else. *)
Definition on_connection (socket : sid) (σ : server) : outcome :=
  let otherUsers := filter (λ id, id ≠ socket) (connected σ) in
  Ok (σ, socket_emit socket "users-present" (PIds otherUsers)
         ++ broadcast_emit (connected σ) socket "user-joined"
              (PVal (JStr socket))).

(** [socket.on('signal', (data) => ...)]:
    [const { to, from, signal } = data;
     console.log(`Forwarding signal from ${from} to ${to}`);
     io.to(to).emit('signal', { from, signal })] *)
Definition on_signal (socket : sid) (data : jsval) (σ : server) : outcome :=
  to ← destructure data "to";
  from ← destructure data "from";
  signal ← destructure data "signal";
  _ ← to_key from;
  _ ← to_key to;
  Ok (σ, io_to_emit (connected σ) to "signal"
           (PVal (JObj [("from", from); ("signal", signal)]))).

(** Socket.IO closes a connection. *)
Definition close (socket : sid) (σ : server) : server :=
  {| connected := connected σ ∖ {[socket]} |}.

(** [socket.on('disconnect', () => ...)] *)
Definition on_disconnect (socket : sid) (σ : server) : outcome :=
  Ok (σ, io_emit (connected σ) "user-left" (PVal (JStr socket))).

Definition connect (socket : sid) (σ : server) : outcome :=
  on_connection socket (accept socket σ).

Definition disconnect (socket : sid) (σ : server) : outcome :=
  on_disconnect socket (close socket σ).

End Discovery.

(** ** The discovery configuration as a running server *)

Module DiscoveryRun.
Import Registry SocketIO Discovery.

Definition init : server := {| connected := ∅ |}.

(** What the server reacts to. *)
Inductive input : Type :=
  | Connect (socket : sid)
  | Message (socket : sid) (ev : string) (arg : jsval)
  | Disconnect (socket : sid).

(** A client packet: a reserved name closes the connection; the only
    handler installed for a client event is that of [signal]. *)
Definition handle (socket : sid) (ev : string) (arg : jsval) (σ : server)
  : outcome :=
  if reserved ev then disconnect socket σ
  else if String.eqb ev "signal" then on_signal socket arg σ
  else Ok (σ, []).

Definition step (i : input) (σ : server) : outcome :=
  match i with
  | Connect socket => connect socket σ
  | Message socket ev arg => handle socket ev arg σ
  | Disconnect socket => disconnect socket σ
  end.

(** A run: the inputs in order, with everything delivered on the way. *)
Fixpoint run (inputs : list input) (σ : server) : outcome :=
  match inputs with
  | [] => Ok (σ, [])
  | i :: rest =>
      '(σ1, ds1) ← step i σ;
      '(σ2, ds2) ← run rest σ1;
      Ok (σ2, ds1 ++ ds2)
  end.

(** The peers a client knows of, as the comments of the three emits intend
    the events to be used: [users-present] is the list to start from,
    [user-joined] adds a peer to it and [user-left] removes one.  Any other
    event leaves the list alone. *)
Definition learn (peers : gset sid) (d : delivery) : gset sid :=
  match argument d with
  | PIds ids => if String.eqb (event d) "users-present" then ids else peers
  | PVal (JStr s) =>
      if String.eqb (event d) "user-joined" then {[s]} ∪ peers
      else if String.eqb (event d) "user-left" then peers ∖ {[s]}
      else peers
  | PVal _ => peers
  end.

(** The peers socket [c] knows of after receiving its share of [ds]. *)
Definition peers_of (c : sid) (ds : list delivery) : gset sid :=
  foldl learn ∅ (inbox c ds).

(** The peers each connected socket knows of are the other connected
    sockets. *)
Definition peers_consistent (σ : server) (ds : list delivery) : Prop :=
  ∀ c, c ∈ connected σ → peers_of c ds = connected σ ∖ {[c]}.

End DiscoveryRun.

(** ** The relay configuration

    The third [server.js]: no [users-present], [user-joined] and
    [user-left] carry an object [{ userId }], and a [signal] is sent with
    [socket.to], which leaves the sender out.  The state is that of the
    discovery configuration. *)

Module Relay.
Import Registry SocketIO.
Export Discovery (server, Server, connected, outcome, accept, close).

(** [socket.to(room).emit(ev, arg)]: to the sockets in [room] except
    [socket] itself. *)
Definition socket_to_emit (connected : gset sid) (socket : sid)
    (room : jsval) (ev : string) (arg : payload) : list delivery :=
  io_to_emit (connected ∖ {[socket]}) room ev arg.

(** [socket.on('signal', (data) => ...)]:
    [const { to, from, signal } = data;
     console.log(`Forwarding signal from ${from} to ${to}`);
     socket.to(to).emit('signal', { from, signal })] *)
Definition on_signal (socket : sid) (data : jsval) (σ : server) : outcome :=
  to ← destructure data "to";
  from ← destructure data "from";
  signal ← destructure data "signal";
  _ ← to_key from;
  _ ← to_key to;
  Ok (σ, socket_to_emit (connected σ) socket to "signal"
           (PVal (JObj [("from", from); ("signal", signal)]))).

(** [io.on('connection', (socket) => ...)]: [user-joined] to everyone
    else. *)
Definition on_connection (socket : sid) (σ : server) : outcome :=
  Ok (σ, broadcast_emit (connected σ) socket "user-joined"
           (PVal (JObj [("userId", JStr socket)]))).

(** [socket.on('disconnect', () => ...)] *)
Definition on_disconnect (socket : sid) (σ : server) : outcome :=
  Ok (σ, io_emit (connected σ) "user-left"
           (PVal (JObj [("userId", JStr socket)]))).

Definition connect (socket : sid) (σ : server) : outcome :=
  on_connection socket (accept socket σ).

Definition disconnect (socket : sid) (σ : server) : outcome :=
  on_disconnect socket (close socket σ).

End Relay.

(** ** Scenarios and the readings that the code does not meet *)

Module Scenario.
Import Registry SocketIO.

(** Sockets [A] and [B] connect and log in as [alice] and [bob]. *)
Definition alice_and_bob : list Login.input :=
  [Login.Connect "A"; Login.Message "A" "login" (JStr "alice");
   Login.Connect "B"; Login.Message "B" "login" (JStr "bob")].

Definition two_users : Login.server := Login.exec alice_and_bob Login.init.

(** After that, a socket [C] connects and does not log in. *)
Definition with_guest : Login.server :=
  Login.exec (alice_and_bob ++ [Login.Connect "C"]) Login.init.

(** Sockets [A] and [B] are connected and nobody has logged in. *)
Definition two_sockets : Login.server :=
  Login.exec [Login.Connect "A"; Login.Connect "B"] Login.init.

(** Socket [A] logs in as [x], then as [y], and goes away; [B] connects.
    The entry of [x] outlives its socket. *)
Definition stale_entry : Login.server :=
  Login.exec
    [Login.Connect "A"; Login.Message "A" "login" (JStr "x");
     Login.Message "A" "login" (JStr "y"); Login.Disconnect "A";
     Login.Connect "B"] Login.init.

(** The discovery server with [A] and [B] connected. *)
Definition two_peers : Discovery.server :=
  {| Discovery.connected := {["A"; "B"]} |}.

(** A [signal] of [A] for [B] that claims to come from [mallory]. *)
Definition spoofed_signal : jsval :=
  JObj [("to", JStr "B"); ("from", JStr "mallory"); ("signal", JStr "sdp")].

(** An [offer] for [bob] with an identity of the sender's choosing inside
    the payload. *)
Definition offer_to_bob : jsval :=
  JObj [("targetUserId", JStr "bob"); ("offer", JStr "sdp1");
        ("fromUserId", JStr "mallory")].

(** An object that does not convert to a string: JSON [{"toString": 7}]. *)
Definition unprintable : jsval := JObj [("toString", seven)].

(** An [offer] whose target is that object. *)
Definition offer_to_unprintable : jsval :=
  JObj [("targetUserId", unprintable); ("offer", JStr "sdp1")].

(** An [offer] for the id [x]. *)
Definition offer_to_x : jsval :=
  JObj [("targetUserId", JStr "x"); ("offer", JStr "sdp1")].

(** C1 read on the [signal] handler: what the target receives carries the
    id the server knows the sender by, its socket id. *)
Definition signal_from_is_sender (socket : sid) (data : jsval)
    (σ : Discovery.server) : Prop :=
  ∀ σ' ds d obj,
    Discovery.on_signal socket data σ = Ok (σ', ds) →
    d ∈ ds → argument d = PVal (JObj obj) →
    prop_of obj "from" = JStr socket.

(** C1 read on a target that is in [users]: exactly one event is
    delivered. *)
Definition present_target_reached (k : Login.routed) (socket : sid)
    (data : jsval) (σ : Login.server) : Prop :=
  ∀ target key c,
    destructure data "targetUserId" = Ok target →
    to_key target = Ok key →
    lookup key (Login.users σ) = Own c →
    ∃ σ' d, Login.on_routed k socket data σ = Ok (σ', [d]).

(** C3 as stated: a routed event whose target is not among the registered
    ids delivers nothing, raises nothing and changes nothing. *)
Definition absent_target_silent (k : Login.routed) (socket : sid)
    (data : jsval) (σ : Login.server) : Prop :=
  ∀ target,
    destructure data "targetUserId" = Ok target →
    (∀ key, to_key target = Ok key → key ∉ snapshotIds (Login.users σ)) →
    Login.handle socket (Login.event_name k) data σ = Ok (σ, []).

(** C4 as stated: every connection that is still registered receives a
    notification that names the id that left. *)
Definition leave_notice_names_id (socket : sid) (σ : Login.server) : Prop :=
  ∀ σ' ds c id key,
    Login.disconnect socket σ = Ok (σ', ds) →
    to_key (Login.userId_of σ socket) = Ok key →
    Login.users σ' !! id = Some c → c ∈ Login.connected σ' →
    ∃ d, inbox c ds = [d] ∧ mentions key (argument d).

(** C5 as stated: [a] and then [b] log in under the same id, [users] has
    [b] for it, [a] disconnects, and [users[id]] reads as absent. *)
Definition ghost_lookup_absent (a b : sid) (uid : jsval)
    (σ : Login.server) : Prop :=
  ∀ σ2 ds2 σ3 ds3 key,
    Login.run [Login.Message a "login" uid; Login.Message b "login" uid] σ
    = Ok (σ2, ds2) →
    to_key uid = Ok key →
    lookup key (Login.users σ2) = Own b →
    Login.step (Login.Disconnect a) σ2 = Ok (σ3, ds3) →
    lookup key (Login.users σ3) = Absent.

(** C7 as stated: the sockets that receive the broadcast of a login are
    all the connected sockets except the one that logged in. *)
Definition announce_reaches_others_only (socket : sid) (uid : jsval)
    (σ : Login.server) : Prop :=
  ∀ σ' ds,
    Login.on_login socket uid σ = Ok (σ', ds) →
    recipients ds = Login.connected σ ∖ {[socket]}.

(** C8 read on the login configuration: a new connection is sent the ids
    present. *)
Definition connect_sends_snapshot (socket : sid) (σ : Login.server) : Prop :=
  ∀ σ' ds,
    Login.connect socket σ = Ok (σ', ds) →
    ∃ d ids, d ∈ inbox socket ds ∧ argument d = PIds ids.

(** C10 as stated: a routed event of a socket that never logged in, for a
    target that is in [users], is delivered. *)
Definition unannounced_sender_reaches (k : Login.routed) (socket : sid)
    (data : jsval) (σ : Login.server) : Prop :=
  ∀ target key c,
    Login.phase_of σ socket = Login.UNANNOUNCED →
    destructure data "targetUserId" = Ok target →
    to_key target = Ok key →
    lookup key (Login.users σ) = Own c →
    ∃ d, Login.handle socket (Login.event_name k) data σ = Ok (σ, [d]).

End Scenario.

(** ** Further scenarios *)

Module Example.
Import Registry SocketIO.

(** With [A] and [B] connected, socket [A] logs in under the number [7]. *)
Definition numbered : Login.server :=
  Login.exec [Login.Connect "A"; Login.Connect "B";
              Login.Message "A" "login" seven] Login.init.

(** An [answer] addressed to the string ["7"]. *)
Definition answer_to_7 : jsval :=
  JObj [("targetUserId", JStr "7"); ("answer", JStr "sdp2")].

(** A socket [C] that signals, sends an unknown event and an offer, and
    never logs in. *)
Definition guest_messages : list (string * jsval) :=
  [("ping", JNull);
   ("offer", JObj [("targetUserId", JStr "bob"); ("offer", JStr "sdp1")]);
   ("user-list", JStr "forged")].

(** Three peers come, one goes and comes back, one signals. *)
Definition comings_and_goings : list DiscoveryRun.input :=
  [DiscoveryRun.Connect "A"; DiscoveryRun.Connect "B";
   DiscoveryRun.Connect "C"; DiscoveryRun.Disconnect "B";
   DiscoveryRun.Message "A" "signal" Scenario.spoofed_signal;
   DiscoveryRun.Connect "B"; DiscoveryRun.Disconnect "A"].

(** The state they leave and everything that was delivered. *)
Definition comings_and_goings_end : Discovery.server * list delivery :=
  match DiscoveryRun.run comings_and_goings DiscoveryRun.init with
  | Ok end_ => end_
  | Throw => (DiscoveryRun.init, [])
  end.

End Example.

(** A decidable proposition about concrete data, settled by evaluation. *)
Ltac compute_decision :=
  apply (bool_decide_unpack _); vm_compute; exact I.

(** * Lists with unique keys *)

Section unique_keys.
Context {A B : Type} `{EqDecision B} (key : A → B).

Lemma filter_absent (P : A → Prop) `{∀ x, Decision (P x)} (l : list A) :
  Forall (λ x, ¬ P x) l → filter P l = [].
Proof.
  induction 1 as [|x l Hx _ IH]; [done|].
  by rewrite filter_cons, decide_False.
Qed.

(** In a list without two elements of the same key, the elements that
    have the key of [a] are [a] alone. *)
Lemma filter_unique (l : list A) (a : A) :
  NoDup (key <$> l) → a ∈ l → filter (λ x, key x = key a) l = [a].
Proof.
  induction l as [|x l IH]; intros Hnd Hin; [by apply elem_of_nil in Hin|].
  rewrite fmap_cons in Hnd. apply NoDup_cons in Hnd as [Hx Hnd].
  rewrite filter_cons. apply elem_of_cons in Hin as [->|Hin].
  - rewrite decide_True by done. f_equal.
    apply filter_absent, Forall_forall. intros y Hy Heq.
    apply Hx. rewrite <- Heq. apply list_elem_of_fmap. by exists y.
  - rewrite decide_False; [by apply IH|].
    intros Heq. apply Hx. rewrite Heq. apply list_elem_of_fmap. by exists a.
Qed.
End unique_keys.

(** * Properties of the registry *)

Section registry_facts.
Import Registry.
Implicit Types (users : gmap string string) (ops : list op) (id conn : string).

Lemma run_app ops1 ops2 users :
  run (ops1 ++ ops2) users = run ops2 (run ops1 users).
Proof. unfold run. apply foldl_app. Qed.

Lemma register_other id id' conn users :
  id' ≠ id → register id' conn users !! id = users !! id.
Proof.
  intros Hne. unfold register. case_match; [done|].
  by rewrite lookup_insert_ne.
Qed.

(** Off [__proto__], a write is read back. *)
Lemma register_own id conn users :
  id ≠ "__proto__" → register id conn users !! id = Some conn.
Proof.
  intros Hne. unfold register.
  destruct (String.eqb_spec id "__proto__"); [done|].
  apply lookup_insert_eq.
Qed.

Lemma lookup_own id conn users :
  users !! id = Some conn → lookup id users = Own conn.
Proof. intros H. unfold lookup. by rewrite H. Qed.

Lemma lookup_not_own id users :
  users !! id = None → ∀ conn, lookup id users ≠ Own conn.
Proof. intros H conn. unfold lookup. rewrite H. by case_bool_decide. Qed.

Lemma lookup_none id users :
  users !! id = None →
  lookup id users
  = (if bool_decide (id ∈ object_prototype) then Inherited else Absent).
Proof. intros H. unfold lookup. by rewrite H. Qed.

Lemma lookup_absent id users :
  users !! id = None → id ∉ object_prototype → lookup id users = Absent.
Proof. intros H Hp. unfold lookup. rewrite H. by rewrite bool_decide_false. Qed.

Lemma run_untouched id ops users :
  untouched id ops → run ops users !! id = users !! id.
Proof.
  unfold untouched. revert users.
  induction ops as [|o ops IH]; intros users Hu; [done|].
  apply Forall_cons in Hu as [Ho Hu].
  change (run (o :: ops) users) with (run ops (apply users o)).
  rewrite IH by done.
  destruct o as [i c|i]; cbn in *.
  - by apply register_other.
  - unfold unregister. by rewrite lookup_delete_ne.
Qed.

Lemma entries_unique users id conn :
  users !! id = Some conn →
  filter (λ kv, kv.1 = id) (entries users) = [(id, conn)].
Proof.
  intros Hl. apply (filter_unique fst (entries users) (id, conn)).
  - apply NoDup_fst_map_to_list.
  - by apply elem_of_map_to_list.
Qed.

(** C2 as stated fails: on the empty registry [users['constructor']] is
    the function inherited from [Object.prototype], not absent. *)
Lemma inherited_name_is_not_absent :
  ¬ lookup_follows_most_recent "constructor" [].
Proof.
  intros (_ & _ & H).
  assert (untouched "constructor" []) as Hu by constructor.
  specialize (H Hu). vm_compute in H. discriminate.
Qed.

(** The key [__proto__] cannot be registered. *)
Lemma proto_is_never_registered conn users :
  register "__proto__" conn users = users.
Proof. done. Qed.

(** C2 (amended). For an id that is not a property name of
    [Object.prototype]: after any finite sequence of register and
    unregister operations, [lookup id] is the connection of the most recent
    [register id _], and it is absent when the most recent operation that
    names [id] is an [unregister], or when no operation names [id] and [id]
    was not registered to begin with (in particular from the empty
    registry).  Registering the same [id] twice leaves exactly one entry
    for [id] in the snapshot, bound to the second connection. *)
Theorem registry_lookup_most_recent id ops users :
  id ∉ object_prototype →
  (∀ before conn after,
      ops = before ++ Register id conn :: after → untouched id after →
      lookup id (run ops users) = Own conn)
  ∧ (∀ before after,
      ops = before ++ Unregister id :: after → untouched id after →
      lookup id (run ops users) = Absent)
  ∧ (untouched id ops → lookup id users = Absent →
      lookup id (run ops users) = Absent)
  ∧ (untouched id ops → lookup id (run ops ∅) = Absent)
  ∧ (∀ conn1 conn2,
      let users2 := register id conn2 (register id conn1 users) in
      lookup id users2 = Own conn2
      ∧ id ∈ snapshotIds users2
      ∧ filter (λ kv, kv.1 = id) (entries users2) = [(id, conn2)]).
Proof.
  intros Hp.
  assert (id ≠ "__proto__") as Hproto.
  { intros ->. apply Hp. compute_decision. }
  split; [|split; [|split; [|split]]].
  - intros before conn after -> Hu. apply lookup_own.
    rewrite run_app.
    change (run (Register id conn :: after) ?m)
      with (run after (register id conn m)).
    rewrite run_untouched by done. by apply register_own.
  - intros before after -> Hu. apply lookup_absent; [|done].
    rewrite run_app.
    change (run (Unregister id :: after) ?m)
      with (run after (unregister id m)).
    rewrite run_untouched by done. apply lookup_delete_eq.
  - intros Hu Hn. unfold lookup in *. by rewrite run_untouched.
  - intros Hu. apply lookup_absent; [|done]. by rewrite run_untouched.
  - intros conn1 conn2 users2.
    assert (users2 !! id = Some conn2) as Hown by by apply register_own.
    split; [by apply lookup_own|]. split.
    + apply elem_of_dom. by eexists.
    + by apply entries_unique.
Qed.

Lemma registry_lookup_most_recent_witness :
  lookup "alice"
    (run [Register "alice" "s1"; Register "bob" "s2"; Unregister "alice";
          Register "alice" "s3"; Unregister "bob"] ∅) = Own "s3"
  ∧ lookup "bob"
    (run [Register "alice" "s1"; Register "bob" "s2"; Unregister "alice";
          Register "alice" "s3"; Unregister "bob"] ∅) = Absent
  ∧ lookup "carol" (run [Register "alice" "s1"; Unregister "alice"] ∅)
    = Absent.
Proof.
  split; [|split].
  - apply (registry_lookup_most_recent "alice" _ ∅)
      with (before := [Register "alice" "s1"; Register "bob" "s2"; Unregister "alice"])
           (after := [Unregister "bob"]); [compute_decision|reflexivity|].
    repeat constructor. cbn. discriminate.
  - apply (registry_lookup_most_recent "bob" _ ∅)
      with (before := [Register "alice" "s1"; Register "bob" "s2"; Unregister "alice";
                       Register "alice" "s3"])
           (after := []); [compute_decision|reflexivity|constructor].
  - apply (registry_lookup_most_recent "carol" _ ∅);
      [compute_decision|].
    repeat constructor; cbn; discriminate.
Defined.
End registry_facts.

(** * Properties of the emit primitives *)

Section socketio_facts.
Import Registry SocketIO.
Implicit Types (connected : gset string) (c ev : string) (arg : payload).

Lemma recipient_io_emit connected ev arg :
  recipient <$> io_emit connected ev arg = elements connected.
Proof.
  unfold io_emit. rewrite <- list_fmap_compose. apply list_fmap_id.
Qed.

Lemma elem_of_io_emit connected ev arg d :
  d ∈ io_emit connected ev arg ↔ ∃ c, d = Deliver c ev arg ∧ c ∈ connected.
Proof.
  unfold io_emit. rewrite list_elem_of_fmap.
  by setoid_rewrite elem_of_elements.
Qed.

(** A broadcast reaches each connected socket exactly once. *)
Lemma inbox_io_emit connected ev arg c :
  c ∈ connected → inbox c (io_emit connected ev arg) = [Deliver c ev arg].
Proof.
  intros Hc.
  apply (filter_unique recipient (io_emit connected ev arg) (Deliver c ev arg)).
  - rewrite recipient_io_emit. apply NoDup_elements.
  - apply elem_of_io_emit. by exists c.
Qed.

(** A broadcast reaches no other socket. *)
Lemma inbox_io_emit_absent connected ev arg c :
  c ∉ connected → inbox c (io_emit connected ev arg) = [].
Proof.
  intros Hc. apply filter_absent, Forall_forall.
  intros d [c' [-> Hc']]%elem_of_io_emit. cbn. by intros ->.
Qed.

Lemma recipients_io_emit connected ev arg :
  recipients (io_emit connected ev arg) = connected.
Proof.
  unfold recipients. rewrite recipient_io_emit. apply list_to_set_elements_L.
Qed.

Lemma inbox_app c (ds1 ds2 : list delivery) :
  inbox c (ds1 ++ ds2) = inbox c ds1 ++ inbox c ds2.
Proof. apply filter_app. Qed.

Lemma not_elem_of_without (X : gset string) c : c ∉ X ∖ {[c]}.
Proof. intros [_ Hn]%elem_of_difference. apply Hn. by apply elem_of_singleton. Qed.

Lemma elem_of_without (X : gset string) c c' :
  c ∈ X → c ≠ c' → c ∈ X ∖ {[c']}.
Proof.
  intros Hc Hne. apply elem_of_difference. split; [done|].
  by intros ?%elem_of_singleton.
Qed.
End socketio_facts.

(** * The login configuration: invariant of the running server *)

Section login_invariant.
Import Registry SocketIO Login.
Implicit Types (σ : server) (socket c key : string) (k : routed).
Implicit Types (data target blob uid : jsval).

(** The names of a destructuring pattern are read together: one raises
    exactly when the other does. *)
Lemma destructure_total data name1 name2 v :
  destructure data name1 = Ok v → ∃ w, destructure data name2 = Ok w.
Proof. destruct data; cbn; intros; simplify_eq; eauto. Qed.

Lemma on_routed_state k socket data σ σ' ds :
  on_routed k socket data σ = Ok (σ', ds) → σ' = σ.
Proof.
  unfold on_routed.
  destruct (destructure data "targetUserId") as [target|]; [|done].
  destruct (destructure data (blob_field k)); [|done].
  unfold mbind, result_bind.
  destruct (to_key target); [|done].
  destruct (slot_truthy _); [|by intros [= <- _]].
  destruct (if logs_forwarding k then _ else _); [|done].
  destruct (lookup _ _); by intros [= <- _].
Qed.

Lemma handle_routed k socket data σ :
  handle socket (event_name k) data σ = on_routed k socket data σ.
Proof. by destruct k. Qed.

Lemma wf_init : wf init.
Proof.
  split; [|split]; cbn.
  - apply not_elem_of_empty.
  - intros id c. by rewrite lookup_empty.
  - intros s v. by rewrite lookup_empty.
Qed.

Lemma wf_on_login socket uid σ σ' ds :
  wf σ → socket ∈ connected σ →
  on_login socket uid σ = Ok (σ', ds) → wf σ'.
Proof.
  intros (Hc & Hu & Hi) Hs. unfold on_login.
  destruct (truthy uid) eqn:Huid; cbn; [|by intros [= <- _]].
  destruct (to_key uid) as [key|] eqn:Hkey; cbn; [|done].
  intros [= <- _]. split; [|split]; cbn; [done| |].
  - intros id c. unfold register. case_match; [by apply Hu|].
    rewrite lookup_insert. case_decide; [|by apply Hu].
    intros [= <-]. by intros ->.
  - intros s v. rewrite lookup_insert.
    case_decide; [|by apply Hi]. intros [= <-]. eauto.
Qed.

Lemma wf_close socket σ : wf σ → wf (close socket σ).
Proof.
  intros (Hc & Hu & Hi). split; [|split]; cbn; [|done..].
  by intros [? _]%elem_of_difference.
Qed.

Lemma wf_on_disconnect socket σ σ' ds :
  wf σ → on_disconnect socket σ = Ok (σ', ds) → wf σ'.
Proof.
  intros (Hc & Hu & Hi). unfold on_disconnect.
  destruct (truthy _); [|by intros [= <- _]].
  destruct (to_key _) as [key|]; cbn; [|done].
  intros [= <- _]. split; [|split]; cbn; [done| |done].
  intros id c. unfold unregister.
  intros [_ ?]%lookup_delete_Some. by eapply Hu.
Qed.

Lemma wf_step σ i σ' ds :
  wf σ → enabled σ i → step i σ = Ok (σ', ds) → wf σ'.
Proof.
  intros Hwf Hen Hstep. destruct i as [s|s ev arg|s]; cbn in *.
  - unfold connect, on_connection in Hstep. injection Hstep as <- <-.
    destruct Hwf as (Hc & Hu & Hi), Hen as [Hs _].
    split; [|split]; cbn; [|done|].
    + intros [?%elem_of_singleton|?]%elem_of_union; [by subst|done].
    + intros s' v [_ ?]%lookup_delete_Some. by eapply Hi.
  - unfold handle in Hstep. destruct (reserved ev).
    { eapply wf_on_disconnect; [|done]. by apply wf_close. }
    repeat case_match;
      try (apply on_routed_state in Hstep; by subst);
      [by eapply wf_on_login|by injection Hstep as <- <-].
  - unfold disconnect in Hstep. eapply wf_on_disconnect; [|done].
    by apply wf_close.
Qed.

Lemma reachable_wf σ : reachable σ → wf σ.
Proof. induction 1; [apply wf_init|by eapply wf_step]. Qed.

Lemma reachable_run inputs σ σ' ds :
  reachable σ → run_enabled inputs σ → run inputs σ = Ok (σ', ds) →
  reachable σ'.
Proof.
  revert σ ds. induction inputs as [|i rest IH]; intros σ ds Hr Hen Hrun.
  - cbn in Hrun. by simplify_eq.
  - cbn in Hen, Hrun. destruct Hen as [Hi Hrest].
    destruct (step i σ) as [[σ1 ds1]|] eqn:Hstep; [|done].
    cbn in Hrun.
    destruct (run rest σ1) as [[σ2 ds2]|] eqn:Hrun'; [|done].
    cbn in Hrun. simplify_eq.
    eapply IH; [|done..]. by eapply reachable_step.
Qed.

(** On a running server the [userId] of a socket converts to a string:
    a login with an id that does not convert raises before it writes. *)
Lemma userId_converts σ socket :
  reachable σ → ∃ key, to_key (userId_of σ socket) = Ok key.
Proof.
  intros (_ & _ & Hi)%reachable_wf. unfold userId_of.
  destruct (userId σ !! socket) as [v|] eqn:Hv; cbn; [|by eauto].
  by apply Hi in Hv as [_ ?].
Qed.

(** A socket of a running server that is not [ANNOUNCED] has no [userId]
    property. *)
Lemma unannounced_userId σ socket :
  reachable σ → truthy (userId_of σ socket) = false →
  userId_of σ socket = JUndefined.
Proof.
  intros (_ & _ & Hi)%reachable_wf. unfold userId_of.
  destruct (userId σ !! socket) as [v|] eqn:Hv; [|done].
  cbn. intros Hf. apply Hi in Hv as [Hv _]. congruence.
Qed.

(** Everything a routed handler delivers is the forwarded object. *)
Lemma on_routed_deliveries k socket data σ σ' ds blob d :
  destructure data (blob_field k) = Ok blob →
  on_routed k socket data σ = Ok (σ', ds) →
  d ∈ ds →
  ∃ c, d = Deliver c (event_name k) (forwarded k (userId_of σ socket) blob).
Proof.
  intros Hb. unfold on_routed. rewrite Hb.
  destruct (destructure data "targetUserId") as [target|]; [|done].
  unfold mbind, result_bind.
  destruct (to_key target); [|done].
  destruct (slot_truthy _); [|by intros [= <- <-] ?%elem_of_nil].
  destruct (if logs_forwarding k then _ else _); [|done].
  destruct (lookup _ _) as [c| |]; try by intros [= <- <-] ?%elem_of_nil.
  unfold io_to_emit. case_decide; [|by intros [= <- <-] ?%elem_of_nil].
  intros [= <- <-] ->%list_elem_of_singleton. by exists c.
Qed.

(** The routed handlers on a target that has no entry in [users]. *)
Lemma on_routed_miss k socket data σ target key :
  (∃ from, to_key (userId_of σ socket) = Ok from) →
  destructure data "targetUserId" = Ok target →
  to_key target = Ok key →
  users σ !! key = None →
  on_routed k socket data σ = Ok (σ, []).
Proof.
  intros [from Hfrom] Ht Hkey Hl.
  destruct (destructure_total data _ (blob_field k) _ Ht) as [blob Hb].
  unfold on_routed. rewrite Ht, Hb. cbn [mbind result_bind].
  rewrite Hkey. cbn [mbind result_bind]. unfold lookup. rewrite Hl.
  case_bool_decide; cbn; [|done]. rewrite Hfrom. by destruct k.
Qed.

(** The routed handlers on a target whose socket is connected. *)
Lemma on_routed_hit k socket data σ target key blob c :
  (∃ from, to_key (userId_of σ socket) = Ok from) →
  destructure data "targetUserId" = Ok target →
  destructure data (blob_field k) = Ok blob →
  to_key target = Ok key →
  users σ !! key = Some c →
  c ≠ "" → c ∈ connected σ →
  on_routed k socket data σ
  = Ok (σ, [Deliver c (event_name k)
              (forwarded k (userId_of σ socket) blob)]).
Proof.
  intros [from Hfrom] Ht Hb Hkey Hl Hne Hc.
  unfold on_routed. rewrite Ht, Hb. cbn [mbind result_bind].
  rewrite Hkey. cbn [mbind result_bind]. unfold lookup. rewrite Hl.
  cbn. apply String.eqb_neq in Hne. rewrite Hne. cbn. rewrite Hfrom.
  rewrite decide_True by done. by destruct k.
Qed.

(** A target whose socket is gone reaches nobody. *)
Lemma on_routed_dead k socket data σ target key c :
  (∃ from, to_key (userId_of σ socket) = Ok from) →
  destructure data "targetUserId" = Ok target →
  to_key target = Ok key →
  users σ !! key = Some c →
  c ∉ connected σ →
  on_routed k socket data σ = Ok (σ, []).
Proof.
  intros [from Hfrom] Ht Hkey Hl Hc.
  destruct (destructure_total data _ (blob_field k) _ Ht) as [blob Hb].
  unfold on_routed. rewrite Ht, Hb. cbn [mbind result_bind].
  rewrite Hkey. cbn [mbind result_bind]. unfold lookup. rewrite Hl.
  cbn. destruct (negb _); [|done]. rewrite Hfrom.
  rewrite decide_False by done. by destruct k.
Qed.

(** A target that does not convert to a key makes the handler raise. *)
Lemma on_routed_unprintable k socket data σ target :
  destructure data "targetUserId" = Ok target →
  to_key target = Throw →
  on_routed k socket data σ = Throw.
Proof.
  intros Ht Hkey.
  destruct (destructure_total data _ (blob_field k) _ Ht) as [blob Hb].
  unfold on_routed. rewrite Ht, Hb. cbn [mbind result_bind]. by rewrite Hkey.
Qed.
End login_invariant.

(** * The login configuration: scenarios *)

Section login_scenarios.
Import Registry SocketIO Login Scenario.

Lemma reachable_two_users : reachable two_users.
Proof.
  apply (reachable_run alice_and_bob init two_users
           (io_emit {["A"]} "user-list" (PIds {["alice"]})
            ++ io_emit {["A"; "B"]} "user-list" (PIds {["alice"; "bob"]})));
    [apply reachable_init| |by vm_compute].
  vm_compute. repeat split; discriminate.
Qed.

Lemma reachable_with_guest : reachable with_guest.
Proof.
  apply (reachable_run (alice_and_bob ++ [Connect "C"]) init with_guest
           (io_emit {["A"]} "user-list" (PIds {["alice"]})
            ++ io_emit {["A"; "B"]} "user-list" (PIds {["alice"; "bob"]})));
    [apply reachable_init| |by vm_compute].
  vm_compute. repeat split; discriminate.
Qed.

Lemma reachable_two_sockets : reachable two_sockets.
Proof.
  apply (reachable_run [Connect "A"; Connect "B"] init two_sockets []);
    [apply reachable_init| |by vm_compute].
  vm_compute. repeat split; discriminate.
Qed.

Lemma reachable_stale_entry : reachable stale_entry.
Proof.
  apply (reachable_run
           [Connect "A"; Message "A" "login" (JStr "x");
            Message "A" "login" (JStr "y"); Disconnect "A"; Connect "B"]
           init stale_entry
           (io_emit {["A"]} "user-list" (PIds {["x"]})
            ++ io_emit {["A"]} "user-list" (PIds {["x"; "y"]})));
    [apply reachable_init| |by vm_compute].
  vm_compute. repeat split; discriminate.
Qed.
End login_scenarios.

(** * The login configuration: routing *)

Section login_routing.
Import Registry SocketIO Login Scenario.
Implicit Types (σ : server) (socket c key : string) (k : routed).
Implicit Types (data target blob uid : jsval).

(** C1, on the signal handler of the discovery configuration: the [from] of
    a forwarded [signal] is the [from] of the payload, here [mallory] on a
    signal sent by socket [A]. *)
Lemma signal_from_is_payload :
  ¬ signal_from_is_sender "A" spoofed_signal two_peers.
Proof.
  intros H.
  specialize (H two_peers
    [Deliver "B" "signal"
       (PVal (JObj [("from", JStr "mallory"); ("signal", JStr "sdp")]))]
    (Deliver "B" "signal"
       (PVal (JObj [("from", JStr "mallory"); ("signal", JStr "sdp")])))
    [("from", JStr "mallory"); ("signal", JStr "sdp")]).
  discriminate H; [by vm_compute|apply list_elem_of_here|done].
Qed.

(** A target can be in [users] and reach nobody: the entry of an id that
    its socket replaced by a second login is never deleted. *)
Lemma stale_target_not_reached :
  ¬ present_target_reached Offer "B" offer_to_x stale_entry.
Proof.
  intros H.
  destruct (H (JStr "x") "x" "A") as (σ' & d & Hd); [done|done|by vm_compute|].
  vm_compute in Hd. discriminate Hd.
Qed.

(** C1 (amended). In the login configuration, on a running server, a
    routed event ([offer], [answer], [ice-candidate], [chat-message]) whose
    target converts to a key that [users] holds, with a socket that is
    still connected, is delivered exactly once, to that socket and to no
    other, and its [fromUserId] is the [userId] the server recorded on the
    sending socket, whatever the payload contains. *)
Theorem routed_present_target_delivered k socket data σ target key blob c :
  reachable σ →
  destructure data "targetUserId" = Ok target →
  destructure data (blob_field k) = Ok blob →
  to_key target = Ok key →
  lookup key (users σ) = Own c →
  c ∈ connected σ →
  handle socket (event_name k) data σ
  = Ok (σ, [Deliver c (event_name k)
              (PVal (JObj [("fromUserId", userId_of σ socket);
                           (blob_field k, blob)]))]).
Proof.
  intros Hr Ht Hb Hkey Hl Hc. rewrite handle_routed.
  assert (users σ !! key = Some c) as Hown.
  { unfold lookup in Hl. destruct (users σ !! key); [by simplify_eq|].
    by case_bool_decide. }
  apply on_routed_hit with target key; [by apply userId_converts|done..| |done].
  apply reachable_wf in Hr as (Hne & _ & _). by intros ->.
Qed.

Lemma routed_present_target_delivered_witness :
  handle "A" "offer" offer_to_bob two_users
  = Ok (two_users,
        [Deliver "B" "offer"
           (PVal (JObj [("fromUserId", JStr "alice"); ("offer", JStr "sdp1")]))]).
Proof.
  apply (routed_present_target_delivered Offer "A" offer_to_bob two_users
           (JStr "bob") "bob" (JStr "sdp1") "B").
  - apply reachable_two_users.
  - reflexivity.
  - reflexivity.
  - reflexivity.
  - vm_compute. reflexivity.
  - vm_compute. reflexivity.
Defined.

(** C3 as stated fails: a target that is an object with an own [toString]
    is no registered id, and the read [users[targetUserId]] raises. *)
Lemma unprintable_target_raises :
  ¬ absent_target_silent Offer "A" offer_to_unprintable two_users.
Proof.
  intros H. specialize (H unprintable eq_refl).
  discriminate H. intros key Hkey. discriminate Hkey.
Qed.

(** C3 (amended). On a running server, a routed event whose target
    converts to a key that [users] does not hold delivers nothing, to the
    sender or to anyone else, the handler returns normally, and the state
    of the server is the one before. *)
Theorem routed_absent_target_dropped k socket data σ target key :
  reachable σ →
  destructure data "targetUserId" = Ok target →
  to_key target = Ok key →
  key ∉ snapshotIds (users σ) →
  handle socket (event_name k) data σ = Ok (σ, []).
Proof.
  intros Hr Ht Hkey Hl. rewrite handle_routed.
  apply on_routed_miss with target key; [by apply userId_converts|done..|].
  by apply not_elem_of_dom.
Qed.

Lemma routed_absent_target_dropped_witness :
  handle "A" "chat-message"
    (JObj [("targetUserId", JStr "constructor"); ("message", JStr "hello")])
    two_users
  = Ok (two_users, []).
Proof.
  apply (routed_absent_target_dropped ChatMessage "A"
           (JObj [("targetUserId", JStr "constructor");
                  ("message", JStr "hello")])
           two_users (JStr "constructor") "constructor").
  - apply reachable_two_users.
  - reflexivity.
  - reflexivity.
  - compute_decision.
Defined.

(** C9. Whatever a routed handler delivers is an object of two properties,
    [fromUserId] and the blob, and the blob is the value the sender
    supplied under that name, whatever that value is. *)
Theorem routed_blob_unchanged k socket data σ σ' ds blob d :
  destructure data (blob_field k) = Ok blob →
  handle socket (event_name k) data σ = Ok (σ', ds) →
  d ∈ ds →
  event d = event_name k
  ∧ ∃ from, argument d = PVal (JObj [("fromUserId", from); (blob_field k, blob)])
            ∧ prop_of [("fromUserId", from); (blob_field k, blob)] (blob_field k)
              = blob.
Proof.
  intros Hb. rewrite handle_routed. intros Hrun Hd.
  destruct (on_routed_deliveries _ _ _ _ _ _ _ _ Hb Hrun Hd) as [c ->].
  split; [done|]. eexists. split; [done|]. by destruct k.
Qed.

Lemma routed_blob_unchanged_witness :
  event (Deliver "B" "offer"
           (PVal (JObj [("fromUserId", JStr "alice"); ("offer", JStr "sdp1")])))
  = "offer"
  ∧ ∃ from,
      argument (Deliver "B" "offer"
                  (PVal (JObj [("fromUserId", JStr "alice");
                               ("offer", JStr "sdp1")])))
      = PVal (JObj [("fromUserId", from); ("offer", JStr "sdp1")])
      ∧ prop_of [("fromUserId", from); ("offer", JStr "sdp1")] "offer"
        = JStr "sdp1".
Proof.
  apply (routed_blob_unchanged Offer "A" offer_to_bob two_users two_users
           [Deliver "B" "offer"
              (PVal (JObj [("fromUserId", JStr "alice"); ("offer", JStr "sdp1")]))]
           (JStr "sdp1")).
  - reflexivity.
  - vm_compute. reflexivity.
  - apply list_elem_of_here.
Defined.

(** An event without a payload makes the destructuring raise. *)
Lemma routed_nullish_payload_throws k socket σ :
  handle socket (event_name k) JUndefined σ = Throw
  ∧ handle socket (event_name k) JNull σ = Throw.
Proof. by rewrite !handle_routed. Qed.

(** C10 as stated fails: socket [B] never logged in and sends an offer for
    [x], which is in [users] with a socket that left, and the offer is
    dropped. *)
Lemma unannounced_offer_to_stale_target_dropped :
  ¬ unannounced_sender_reaches Offer "B" offer_to_x stale_entry.
Proof.
  intros H.
  destruct (H (JStr "x") "x" "A") as (d & Hd);
    [by vm_compute|done|done|by vm_compute|].
  vm_compute in Hd. discriminate Hd.
Qed.

(** C10 (amended). On a running server, a connected socket that never
    logged in can send a routed event to a registered target: when the
    target converts to a key that [users] holds with a socket that is still
    connected, the event is forwarded to that socket, once, with
    [fromUserId] undefined. *)
Theorem unannounced_sender_forwarded k socket data σ target key blob c :
  reachable σ →
  phase_of σ socket = UNANNOUNCED →
  destructure data "targetUserId" = Ok target →
  destructure data (blob_field k) = Ok blob →
  to_key target = Ok key →
  lookup key (users σ) = Own c →
  c ∈ connected σ →
  handle socket (event_name k) data σ
  = Ok (σ, [Deliver c (event_name k)
              (PVal (JObj [("fromUserId", JUndefined); (blob_field k, blob)]))]).
Proof.
  intros Hr Hp Ht Hb Hkey Hl Hc. rewrite handle_routed.
  assert (users σ !! key = Some c) as Hown.
  { unfold lookup in Hl. destruct (users σ !! key); [by simplify_eq|].
    by case_bool_decide. }
  assert (userId_of σ socket = JUndefined) as Hid.
  { apply unannounced_userId; [done|]. unfold phase_of in Hp.
    case_decide; [|done]. by destruct (truthy _). }
  rewrite <- Hid.
  apply on_routed_hit with target key; [by apply userId_converts|done..| |done].
  apply reachable_wf in Hr as (Hne & _ & _). by intros ->.
Qed.

Lemma unannounced_sender_forwarded_witness :
  handle "C" "ice-candidate"
    (JObj [("targetUserId", JStr "alice"); ("candidate", JStr "cand")])
    with_guest
  = Ok (with_guest,
        [Deliver "A" "ice-candidate"
           (PVal (JObj [("fromUserId", JUndefined); ("candidate", JStr "cand")]))]).
Proof.
  apply (unannounced_sender_forwarded IceCandidate "C"
           (JObj [("targetUserId", JStr "alice"); ("candidate", JStr "cand")])
           with_guest (JStr "alice") "alice" (JStr "cand") "A").
  - apply reachable_with_guest.
  - vm_compute. reflexivity.
  - reflexivity.
  - reflexivity.
  - reflexivity.
  - vm_compute. reflexivity.
  - vm_compute. reflexivity.
Defined.
End login_routing.

(** * The login configuration: presence *)

Section login_presence.
Import Registry SocketIO Login Scenario.
Implicit Types (σ : server) (socket c key : string) (k : routed).
Implicit Types (data target blob uid : jsval).

Lemma handle_login socket uid σ :
  handle socket "login" uid σ = on_login socket uid σ.
Proof. done. Qed.

Lemma on_login_truthy socket uid key σ :
  truthy uid = true → to_key uid = Ok key →
  on_login socket uid σ
  = Ok ({| connected := connected σ;
           users := register key socket (users σ);
           userId := <[socket := uid]> (userId σ) |},
        io_emit (connected σ) "user-list"
          (PIds (snapshotIds (register key socket (users σ))))).
Proof. intros Hu Hkey. unfold on_login. by rewrite Hu, Hkey. Qed.

Lemma disconnect_announced socket key σ :
  truthy (userId_of σ socket) = true →
  to_key (userId_of σ socket) = Ok key →
  disconnect socket σ
  = Ok ({| connected := connected σ ∖ {[socket]};
           users := unregister key (users σ);
           userId := userId σ |},
        io_emit (connected σ ∖ {[socket]}) "user-list"
          (PIds (snapshotIds (unregister key (users σ))))).
Proof.
  intros Hu Hkey. unfold disconnect, on_disconnect.
  change (userId_of (close socket σ) socket) with (userId_of σ socket).
  by rewrite Hu, Hkey.
Qed.

Lemma announced_inv σ socket :
  phase_of σ socket = ANNOUNCED →
  socket ∈ connected σ ∧ truthy (userId_of σ socket) = true.
Proof.
  unfold phase_of. case_decide; [|done]. by destruct (truthy _).
Qed.

(** C4 as stated fails: when [alice] (socket [A]) leaves, [B] receives the
    list of the ids that remain, which does not name [alice]. *)
Lemma leave_notice_is_remaining_ids : ¬ leave_notice_names_id "A" two_users.
Proof.
  intros H.
  assert (truthy (userId_of two_users "A") = true) as Hu by (by vm_compute).
  assert (to_key (userId_of two_users "A") = Ok "alice") as Hkey
    by (by vm_compute).
  destruct (H _ _ "B" "bob" "alice"
              (disconnect_announced "A" "alice" two_users Hu Hkey) Hkey)
    as (d & Hd & Hm); [by vm_compute..|].
  rewrite inbox_io_emit in Hd by (by vm_compute).
  injection Hd as <-. cbn in Hm. unfold snapshotIds, unregister in Hm.
  apply elem_of_dom in Hm as [c Hc]. by rewrite lookup_delete_eq in Hc.
Qed.

(** C4 (amended). On a running server, when the connection of an
    [ANNOUNCED] socket closes, its id leaves [users]: it is no longer among
    the registered ids and [users] yields no connection for it.  Every
    socket that is still connected, registered or not, receives exactly one
    [user-list] with the ids that remain; the socket that closed receives
    nothing. *)
Theorem disconnect_announced_unregisters socket σ :
  reachable σ →
  phase_of σ socket = ANNOUNCED →
  ∃ key σ' ds,
    to_key (userId_of σ socket) = Ok key
    ∧ step (Disconnect socket) σ = Ok (σ', ds)
    ∧ (key ∉ snapshotIds (users σ'))
    ∧ (∀ c, lookup key (users σ') ≠ Own c)
    ∧ connected σ' = connected σ ∖ {[socket]}
    ∧ (∀ c, c ∈ connected σ' →
         inbox c ds = [Deliver c "user-list" (PIds (snapshotIds (users σ')))])
    ∧ (∀ c, c ∉ connected σ' → inbox c ds = []).
Proof.
  intros Hr [Hs Hu]%announced_inv.
  destruct (userId_converts σ socket Hr) as [key Hkey].
  exists key. cbn. rewrite (disconnect_announced socket key) by done.
  eexists _, _. split; [done|]. split; [done|]. cbn.
  assert (unregister key (users σ) !! key = None) as Hgone
    by apply lookup_delete_eq.
  split; [|split; [|split; [done|split]]].
  - unfold snapshotIds. by apply not_elem_of_dom.
  - by apply lookup_not_own.
  - intros c Hc. by apply inbox_io_emit.
  - intros c Hc. by apply inbox_io_emit_absent.
Qed.

Lemma disconnect_announced_unregisters_witness :
  ∃ key σ' ds,
    to_key (userId_of two_users "B") = Ok key
    ∧ step (Disconnect "B") two_users = Ok (σ', ds)
    ∧ (key ∉ snapshotIds (users σ'))
    ∧ (∀ c, lookup key (users σ') ≠ Own c)
    ∧ connected σ' = connected two_users ∖ {["B"]}
    ∧ (∀ c, c ∈ connected σ' →
         inbox c ds = [Deliver c "user-list" (PIds (snapshotIds (users σ')))])
    ∧ (∀ c, c ∉ connected σ' → inbox c ds = []).
Proof.
  apply (disconnect_announced_unregisters "B" two_users).
  - apply reachable_two_users.
  - vm_compute. reflexivity.
Defined.

(** C5 as stated fails: under the id [constructor], after the entry is
    deleted [users['constructor']] reads as the function inherited from
    [Object.prototype], not as absent. *)
Lemma deleted_inherited_name_is_not_absent :
  ¬ ghost_lookup_absent "A" "B" (JStr "constructor") two_sockets.
Proof.
  intros H.
  destruct (run [Message "A" "login" (JStr "constructor");
                 Message "B" "login" (JStr "constructor")] two_sockets)
    as [[σ2 ds2]|] eqn:Hrun; [|by vm_compute in Hrun].
  destruct (step (Disconnect "A") σ2) as [[σ3 ds3]|] eqn:Hstep;
    vm_compute in Hrun; injection Hrun as <- <-;
    [|by vm_compute in Hstep].
  specialize (H _ _ σ3 ds3 "constructor" eq_refl eq_refl).
  vm_compute in Hstep. injection Hstep as <- <-.
  discriminate H; by vm_compute.
Qed.

(** C5 (amended). On a running server, socket [a] logs in under an id
    that converts to a key other than [__proto__], socket [b] logs in under
    the same id and takes the entry over, and [a] disconnects while [b]
    stays connected: the entry is deleted, so the id is no longer among the
    registered ids, [users] yields no connection for it, and routed events
    for it are dropped although [b] is connected and [ANNOUNCED] under
    it. *)
Theorem duplicate_login_then_disconnect a b uid key σ :
  reachable σ →
  a ≠ b → a ∈ connected σ → b ∈ connected σ →
  truthy uid = true → to_key uid = Ok key → key ≠ "__proto__" →
  ∃ σ2 ds2 σ3 ds3,
    run [Message a "login" uid; Message b "login" uid] σ = Ok (σ2, ds2)
    ∧ lookup key (users σ2) = Own b
    ∧ step (Disconnect a) σ2 = Ok (σ3, ds3)
    ∧ (key ∉ snapshotIds (users σ3))
    ∧ (∀ c, lookup key (users σ3) ≠ Own c)
    ∧ phase_of σ3 b = ANNOUNCED
    ∧ userId_of σ3 b = uid
    ∧ (∀ k socket data target,
         destructure data "targetUserId" = Ok target →
         to_key target = Ok key →
         handle socket (event_name k) data σ3 = Ok (σ3, [])).
Proof.
  intros Hr Hab Ha Hb Hu Hkey Hproto.
  cbn [run step]. rewrite handle_login.
  rewrite (on_login_truthy a uid key σ Hu Hkey). cbn [mbind result_bind].
  rewrite handle_login.
  rewrite (on_login_truthy b uid key _ Hu Hkey). cbn [mbind result_bind].
  set (σ2 := {| connected := connected σ;
                users := register key b (register key a (users σ));
                userId := <[b:=uid]> (<[a:=uid]> (userId σ)) |}).
  assert (userId_of σ2 a = uid) as Hida.
  { unfold userId_of. cbn. rewrite lookup_insert_ne by done.
    by rewrite lookup_insert_eq. }
  assert (userId_of σ2 b = uid) as Hidb.
  { unfold userId_of. cbn. by rewrite lookup_insert_eq. }
  pose proof (disconnect_announced a key σ2) as Hdis.
  rewrite Hida in Hdis. specialize (Hdis Hu Hkey).
  eexists σ2, _, _, _. split; [done|].
  split; [by apply lookup_own, register_own|]. split; [exact Hdis|]. cbn.
  assert (unregister key (users σ2) !! key = None) as Hgone
    by apply lookup_delete_eq.
  split; [by apply not_elem_of_dom|].
  split; [by apply lookup_not_own|]. split; [|split].
  - unfold phase_of. change (userId_of _ b) with (userId_of σ2 b).
    rewrite Hidb, Hu. cbn. rewrite decide_True; [done|].
    by apply elem_of_without.
  - exact Hidb.
  - intros k socket data target Ht Htk. rewrite handle_routed.
    apply on_routed_miss with target key; [|done..].
    unfold userId_of. cbn.
    destruct (decide (b = socket)) as [->|Hnb];
      [rewrite lookup_insert_eq; by eauto|rewrite lookup_insert_ne by done].
    destruct (decide (a = socket)) as [->|Hna];
      [rewrite lookup_insert_eq; by eauto|rewrite lookup_insert_ne by done].
    apply (userId_converts σ socket Hr).
Qed.

Lemma duplicate_login_then_disconnect_witness :
  ∃ σ2 ds2 σ3 ds3,
    run [Message "A" "login" (JStr "x"); Message "B" "login" (JStr "x")]
      two_sockets = Ok (σ2, ds2)
    ∧ lookup "x" (users σ2) = Own "B"
    ∧ step (Disconnect "A") σ2 = Ok (σ3, ds3)
    ∧ ("x" ∉ snapshotIds (users σ3))
    ∧ (∀ c, lookup "x" (users σ3) ≠ Own c)
    ∧ phase_of σ3 "B" = ANNOUNCED
    ∧ userId_of σ3 "B" = JStr "x"
    ∧ (∀ k socket data target,
         destructure data "targetUserId" = Ok target →
         to_key target = Ok "x" →
         handle socket (event_name k) data σ3 = Ok (σ3, [])).
Proof.
  apply (duplicate_login_then_disconnect "A" "B" (JStr "x") "x" two_sockets).
  - apply reachable_two_sockets.
  - discriminate.
  - vm_compute. reflexivity.
  - vm_compute. reflexivity.
  - reflexivity.
  - reflexivity.
  - discriminate.
Defined.

(** C6. A [login] whose identifier is falsy (empty string, [undefined],
    [null], [false], [0]) is ignored: nothing is emitted and the state is
    the one before, so [users] has the same entries and the socket is in the
    phase it was in, [UNANNOUNCED] if it had not logged in. *)
Theorem login_falsy_ignored socket uid σ :
  truthy uid = false →
  ∃ σ',
    handle socket "login" uid σ = Ok (σ', [])
    ∧ σ' = σ
    ∧ users σ' = users σ
    ∧ phase_of σ' socket = phase_of σ socket.
Proof.
  intros Hu. exists σ. rewrite handle_login. unfold on_login. by rewrite Hu.
Qed.

Lemma login_falsy_ignored_witness :
  ∃ σ',
    handle "A" "login" (JStr "") two_sockets = Ok (σ', [])
    ∧ σ' = two_sockets
    ∧ users σ' = users two_sockets
    ∧ phase_of σ' "A" = phase_of two_sockets "A".
Proof.
  apply (login_falsy_ignored "A" (JStr "") two_sockets). reflexivity.
Defined.

(** C7 as stated fails: the socket that logs in is among the sockets that
    receive the list. *)
Lemma announcer_receives_list :
  ¬ announce_reaches_others_only "A" (JStr "alice") two_sockets.
Proof.
  intros H.
  specialize (H _ _ (on_login_truthy "A" (JStr "alice") "alice" two_sockets
                       eq_refl eq_refl)).
  rewrite recipients_io_emit in H.
  assert ("A" ∈ connected two_sockets) as HA by (by vm_compute).
  rewrite H in HA. by apply not_elem_of_without in HA.
Qed.

(** C7 (amended). After a [login] with a truthy id that converts to a key,
    the updated list of ids is sent to every connected socket, the one that
    logged in included: each receives exactly one [user-list].  Unless the
    key is [__proto__], which cannot be registered, the id is in the list
    and [users] binds it to the socket. *)
Theorem login_broadcast_to_all socket uid key σ :
  socket ∈ connected σ → truthy uid = true → to_key uid = Ok key →
  ∃ σ' ds,
    handle socket "login" uid σ = Ok (σ', ds)
    ∧ (key ≠ "__proto__" →
         lookup key (users σ') = Own socket
         ∧ key ∈ snapshotIds (users σ'))
    ∧ phase_of σ' socket = ANNOUNCED
    ∧ recipients ds = connected σ'
    ∧ (∀ c, c ∈ connected σ' →
         inbox c ds = [Deliver c "user-list" (PIds (snapshotIds (users σ')))])
    ∧ inbox socket ds
      = [Deliver socket "user-list" (PIds (snapshotIds (users σ')))].
Proof.
  intros Hs Hu Hkey. rewrite handle_login.
  rewrite (on_login_truthy socket uid key) by done.
  eexists _, _. split; [done|]. cbn.
  split; [|split; [|split; [|split]]].
  - intros Hproto.
    assert (register key socket (users σ) !! key = Some socket) as Hown
      by by apply register_own.
    split; [by apply lookup_own|]. apply elem_of_dom. by eexists.
  - unfold phase_of, userId_of. cbn. rewrite decide_True by done.
    by rewrite lookup_insert_eq; cbn; rewrite Hu.
  - apply recipients_io_emit.
  - intros c Hc. by apply inbox_io_emit.
  - by apply inbox_io_emit.
Qed.

Lemma login_broadcast_to_all_witness :
  ∃ σ' ds,
    handle "A" "login" (JStr "alice") two_sockets = Ok (σ', ds)
    ∧ ("alice" ≠ "__proto__" →
         lookup "alice" (users σ') = Own "A"
         ∧ "alice" ∈ snapshotIds (users σ'))
    ∧ phase_of σ' "A" = ANNOUNCED
    ∧ recipients ds = connected σ'
    ∧ (∀ c, c ∈ connected σ' →
         inbox c ds = [Deliver c "user-list" (PIds (snapshotIds (users σ')))])
    ∧ inbox "A" ds = [Deliver "A" "user-list" (PIds (snapshotIds (users σ')))].
Proof.
  apply (login_broadcast_to_all "A" (JStr "alice") "alice" two_sockets).
  - vm_compute. reflexivity.
  - reflexivity.
  - reflexivity.
Defined.

(** C8 read on the login configuration fails: its connection handler
    sends nothing to the socket that connects. *)
Lemma login_connect_sends_nothing : ¬ connect_sends_snapshot "C" two_users.
Proof.
  intros H. destruct (H _ _ eq_refl) as (d & ids & Hd & _).
  by apply elem_of_nil in Hd.
Qed.
End login_presence.

(** * The discovery configuration *)

Section discovery_facts.
Import Registry SocketIO Discovery.
Implicit Types (σ : server) (socket c : string).

(** C8 (amended). In the discovery configuration, a socket that connects
    receives exactly one event, [users-present], with the ids of the
    sockets connected at that moment except its own; the login
    configuration sends nothing on connect. *)
Theorem discovery_connect_sends_snapshot socket σ :
  ∃ σ' ds ids,
    connect socket σ = Ok (σ', ds)
    ∧ connected σ' = {[socket]} ∪ connected σ
    ∧ inbox socket ds = [Deliver socket "users-present" (PIds ids)]
    ∧ (∀ c, c ∈ ids ↔ c ∈ connected σ' ∧ c ≠ socket)
    ∧ (∀ τ : Login.server,
         Login.connect socket τ = Ok (Login.accept socket τ, [])).
Proof.
  eexists _, _, _. split; [reflexivity|]. cbn.
  split; [done|]. split; [|split; [|done]].
  - rewrite decide_True by done. f_equal.
    apply (inbox_io_emit_absent _ _ _ socket), not_elem_of_without.
  - intros c. rewrite elem_of_filter. tauto.
Qed.
End discovery_facts.

(** * The login configuration: what the handlers keep and what they raise *)

Section login_frame.
Import Registry SocketIO Login Scenario Example.
Implicit Types (σ : server) (socket c ev key : string) (k : routed).
Implicit Types (data target blob uid arg : jsval).

(** What a client packet runs: the [disconnect] handler, the [login]
    handler, one of the four routed handlers, or nothing. *)
Lemma handle_cases socket ev arg σ :
  (reserved ev = true ∧ handle socket ev arg σ = disconnect socket σ)
  ∨ (ev = "login" ∧ handle socket ev arg σ = on_login socket arg σ)
  ∨ (reserved ev = false ∧ ev ≠ "login"
     ∧ ∃ k, ev = event_name k
            ∧ handle socket ev arg σ = on_routed k socket arg σ)
  ∨ (reserved ev = false ∧ ev ≠ "login"
     ∧ handle socket ev arg σ = Ok (σ, [])).
Proof.
  unfold handle. destruct (reserved ev) eqn:Hres; [by left|]. right.
  destruct (String.eqb_spec ev "login") as [->|Hl]; [by left|]. right.
  destruct (String.eqb_spec ev "offer") as [->|_];
    [left; repeat split; try done; by exists Offer|].
  destruct (String.eqb_spec ev "answer") as [->|_];
    [left; repeat split; try done; by exists Answer|].
  destruct (String.eqb_spec ev "ice-candidate") as [->|_];
    [left; repeat split; try done; by exists IceCandidate|].
  destruct (String.eqb_spec ev "chat-message") as [->|_];
    [left; repeat split; try done; by exists ChatMessage|].
  by right.
Qed.

(** What a close does: nothing but leaving the connected set for a socket
    without a truthy [userId], else the removal of its key and the
    broadcast of the keys that remain. *)
Lemma disconnect_cases socket σ σ' ds :
  disconnect socket σ = Ok (σ', ds) →
  (truthy (userId_of σ socket) = false ∧ σ' = close socket σ ∧ ds = [])
  ∨ (∃ key,
       truthy (userId_of σ socket) = true
       ∧ to_key (userId_of σ socket) = Ok key
       ∧ σ' = {| connected := connected σ ∖ {[socket]};
                 users := unregister key (users σ);
                 userId := userId σ |}
       ∧ ds = io_emit (connected σ ∖ {[socket]}) "user-list"
                (PIds (snapshotIds (unregister key (users σ))))).
Proof.
  unfold disconnect, on_disconnect.
  change (userId_of (close socket σ) socket) with (userId_of σ socket).
  destruct (truthy (userId_of σ socket)); [|intros [= <- <-]; by left].
  destruct (to_key (userId_of σ socket)) as [key|]; [|done].
  cbn. intros [= <- <-]. right. by exists key.
Qed.

(** X1. On a running server a routed handler raises in two cases only:
    the event came without a payload object (the payload is [undefined] or
    [null]), or its target does not convert to a property key (an object
    with an own [toString]).  For every other payload it returns. *)
Theorem routed_raises_iff k socket data σ :
  reachable σ →
  handle socket (event_name k) data σ = Throw
  ↔ data = JUndefined ∨ data = JNull
    ∨ ∃ target, destructure data "targetUserId" = Ok target
                ∧ to_key target = Throw.
Proof.
  intros Hr. rewrite handle_routed.
  destruct (userId_converts σ socket Hr) as [from Hfrom]. split.
  - destruct (destructure data "targetUserId") as [target|] eqn:Ht;
      [|destruct data; try done; by auto].
    destruct (to_key target) as [key|] eqn:Hkey; [|by eauto].
    destruct (destructure_total data _ (blob_field k) _ Ht) as [blob Hb].
    unfold on_routed. rewrite Ht, Hb. cbn [mbind result_bind].
    rewrite Hkey. cbn [mbind result_bind]. rewrite Hfrom.
    destruct (slot_truthy _); [|done].
    destruct (logs_forwarding k); cbn [mbind result_bind];
      by destruct (lookup _ _).
  - intros [->|[->|(target & Ht & Hkey)]]; [done..|].
    by apply on_routed_unprintable with target.
Qed.

Lemma routed_raises_iff_witness :
  handle "A" "offer" offer_to_unprintable two_users = Throw
  ↔ offer_to_unprintable = JUndefined ∨ offer_to_unprintable = JNull
    ∨ ∃ target, destructure offer_to_unprintable "targetUserId" = Ok target
                ∧ to_key target = Throw.
Proof.
  apply (routed_raises_iff Offer "A" offer_to_unprintable two_users).
  apply reachable_two_users.
Defined.

(** X2. Only [login] and a close write: handling an event whose name is
    neither [login] nor reserved (a routed one, delivered or not, or an
    unknown name) either raises or returns the state of the server as it
    was. *)
Theorem message_other_than_login_keeps_state socket ev arg σ :
  ev ≠ "login" → reserved ev = false →
  handle socket ev arg σ = Throw
  ∨ ∃ ds, handle socket ev arg σ = Ok (σ, ds).
Proof.
  intros Hne Hres.
  destruct (handle_cases socket ev arg σ)
    as [[? _]|[[? _]|[(_ & _ & k & _ & Hk)|(_ & _ & Hk)]]];
    [congruence|done| |]; rewrite Hk; [|by eauto].
  destruct (on_routed k socket arg σ) as [[σ' ds]|] eqn:Hrun; [|by left].
  apply on_routed_state in Hrun as Hσ. subst σ'. by eauto.
Qed.

Lemma message_other_than_login_keeps_state_witness :
  handle "A" "offer" offer_to_bob two_users = Throw
  ∨ ∃ ds, handle "A" "offer" offer_to_bob two_users = Ok (two_users, ds).
Proof.
  apply (message_other_than_login_keeps_state "A" "offer" offer_to_bob
           two_users).
  - discriminate.
  - reflexivity.
Defined.

(** X3. A routed event is a unicast: it is delivered at most once, and
    only to the connected socket that [users] holds under the key of its
    target; nobody else, the sender included, receives anything. *)
Theorem routed_is_unicast k socket data σ σ' ds target :
  destructure data "targetUserId" = Ok target →
  handle socket (event_name k) data σ = Ok (σ', ds) →
  length ds ≤ 1
  ∧ ∀ d, d ∈ ds →
      event d = event_name k
      ∧ (∃ key, to_key target = Ok key
                ∧ lookup key (users σ) = Own (recipient d))
      ∧ recipient d ∈ connected σ.
Proof.
  intros Ht. rewrite handle_routed. unfold on_routed. rewrite Ht.
  destruct (destructure data (blob_field k)) as [blob|]; [|done].
  cbn [mbind result_bind].
  destruct (to_key target) as [key|]; [|done]. cbn [mbind result_bind].
  destruct (slot_truthy _);
    [|intros [= <- <-]; split; [cbn; lia|by intros d ?%elem_of_nil]].
  destruct (if logs_forwarding k then _ else _); [|done].
  cbn [mbind result_bind].
  destruct (lookup key (users σ)) as [c| |] eqn:Hl;
    try (intros [= <- <-]; split; [cbn; lia|by intros d ?%elem_of_nil]).
  unfold io_to_emit. case_decide; intros [= <- <-];
    [|split; [cbn; lia|by intros d ?%elem_of_nil]].
  split; [cbn; lia|]. intros d ->%list_elem_of_singleton. cbn.
  split; [done|]. split; [by exists key|done].
Qed.

Lemma routed_is_unicast_witness :
  length [Deliver "B" "offer"
            (PVal (JObj [("fromUserId", JStr "alice"); ("offer", JStr "sdp1")]))]
  ≤ 1
  ∧ ∀ d,
      d ∈ [Deliver "B" "offer"
             (PVal (JObj [("fromUserId", JStr "alice"); ("offer", JStr "sdp1")]))] →
      event d = "offer"
      ∧ (∃ key, to_key (JStr "bob") = Ok key
                ∧ lookup key (users two_users) = Own (recipient d))
      ∧ recipient d ∈ connected two_users.
Proof.
  apply (routed_is_unicast Offer "A" offer_to_bob two_users two_users _
           (JStr "bob")).
  - reflexivity.
  - vm_compute. reflexivity.
Defined.
End login_frame.

(** * The login configuration: how logins and closes compose *)

Section login_composition.
Import Registry SocketIO Login Scenario Example.
Implicit Types (σ : server) (socket c ev key : string) (k : routed).
Implicit Types (data target blob uid arg : jsval).

(** X4. A login makes the socket reachable: once a connected socket of a
    running server has logged in under a truthy id whose key is not
    [__proto__], a routed event of any sender whose target has the same key
    is delivered to that socket, once.  The key is what counts: the number
    [7] and the string ["7"] are one id. *)
Theorem login_makes_reachable
    socket uid key σ σ1 ds1 k sender data target blob :
  reachable σ → socket ∈ connected σ → truthy uid = true →
  handle socket "login" uid σ = Ok (σ1, ds1) →
  to_key uid = Ok key → key ≠ "__proto__" →
  destructure data "targetUserId" = Ok target →
  destructure data (blob_field k) = Ok blob →
  to_key target = Ok key →
  handle sender (event_name k) data σ1
  = Ok (σ1, [Deliver socket (event_name k)
               (PVal (JObj [("fromUserId", userId_of σ1 sender);
                            (blob_field k, blob)]))]).
Proof.
  intros Hr Hs Hu Hlogin Hkey Hproto Ht Hb Htk.
  assert (reachable σ1) as Hr1 by by eapply (reachable_step σ (Message _ _ _)).
  rewrite handle_login, (on_login_truthy socket uid key) in Hlogin by done.
  injection Hlogin as <- _.
  rewrite handle_routed.
  apply on_routed_hit with target key;
    [by apply userId_converts|done..| | |done].
  - cbn. by apply register_own.
  - apply reachable_wf in Hr as (Hne & _ & _). by intros ->.
Qed.

Lemma login_makes_reachable_witness :
  handle "B" "answer" answer_to_7 numbered
  = Ok (numbered,
        [Deliver "A" "answer"
           (PVal (JObj [("fromUserId", userId_of numbered "B");
                        ("answer", JStr "sdp2")]))]).
Proof.
  apply (login_makes_reachable "A" seven "7" two_sockets numbered
           (io_emit {["A"; "B"]} "user-list" (PIds {["7"]}))
           Answer "B" answer_to_7 (JStr "7") (JStr "sdp2")).
  - apply reachable_two_sockets.
  - vm_compute. reflexivity.
  - reflexivity.
  - vm_compute. reflexivity.
  - reflexivity.
  - discriminate.
  - reflexivity.
  - reflexivity.
  - reflexivity.
Defined.

(** X5. A second login of a socket under another id does not remove the
    first: both keys are bound to the socket, the disconnect removes only
    the last one, and the first stays in [users], bound to a socket that is
    gone, so that events for it are dropped. *)
Theorem relogin_leaves_stale_entry socket x y kx ky σ :
  reachable σ →
  truthy x = true → truthy y = true →
  to_key x = Ok kx → to_key y = Ok ky →
  kx ≠ ky → kx ≠ "__proto__" → ky ≠ "__proto__" →
  ∃ σ2 ds2 σ3 ds3,
    run [Message socket "login" x; Message socket "login" y] σ = Ok (σ2, ds2)
    ∧ lookup kx (users σ2) = Own socket
    ∧ lookup ky (users σ2) = Own socket
    ∧ step (Disconnect socket) σ2 = Ok (σ3, ds3)
    ∧ lookup kx (users σ3) = Own socket
    ∧ (ky ∉ snapshotIds (users σ3))
    ∧ (socket ∉ connected σ3)
    ∧ (∀ k sender data target,
         destructure data "targetUserId" = Ok target →
         to_key target = Ok kx →
         handle sender (event_name k) data σ3 = Ok (σ3, [])).
Proof.
  intros Hr Hx Hy Hkx Hky Hxy Hpx Hpy.
  cbn [run step]. rewrite handle_login.
  rewrite (on_login_truthy socket x kx σ Hx Hkx). cbn [mbind result_bind].
  rewrite handle_login.
  rewrite (on_login_truthy socket y ky _ Hy Hky). cbn [mbind result_bind].
  set (σ2 := {| connected := connected σ;
                users := register ky socket (register kx socket (users σ));
                userId := <[socket:=y]> (<[socket:=x]> (userId σ)) |}).
  assert (userId_of σ2 socket = y) as Hid.
  { unfold userId_of. cbn. by rewrite lookup_insert_eq. }
  pose proof (disconnect_announced socket ky σ2) as Hdis.
  rewrite Hid in Hdis. specialize (Hdis Hy Hky).
  assert (users σ2 !! kx = Some socket) as Hx2.
  { cbn. rewrite register_other by done. by apply register_own. }
  eexists σ2, _, _, _. split; [done|]. split; [by apply lookup_own|].
  split; [by apply lookup_own, register_own|]. split; [exact Hdis|].
  assert (unregister ky (users σ2) !! kx = Some socket) as Hx3.
  { unfold unregister. by rewrite lookup_delete_ne. }
  split; [by apply lookup_own|].
  split; [apply not_elem_of_dom, lookup_delete_eq|].
  split; [apply not_elem_of_without|].
  intros k sender data target Ht Htk. rewrite handle_routed.
  apply on_routed_dead with target kx socket;
    [|done..|apply not_elem_of_without].
  unfold userId_of. cbn.
  destruct (decide (socket = sender)) as [->|Hne].
  - rewrite lookup_insert_eq. by eauto.
  - rewrite !lookup_insert_ne by done. apply (userId_converts σ sender Hr).
Qed.

Lemma relogin_leaves_stale_entry_witness :
  ∃ σ2 ds2 σ3 ds3,
    run [Message "A" "login" (JStr "x"); Message "A" "login" (JStr "y")]
      two_sockets = Ok (σ2, ds2)
    ∧ lookup "x" (users σ2) = Own "A"
    ∧ lookup "y" (users σ2) = Own "A"
    ∧ step (Disconnect "A") σ2 = Ok (σ3, ds3)
    ∧ lookup "x" (users σ3) = Own "A"
    ∧ ("y" ∉ snapshotIds (users σ3))
    ∧ ("A" ∉ connected σ3)
    ∧ (∀ k sender data target,
         destructure data "targetUserId" = Ok target →
         to_key target = Ok "x" →
         handle sender (event_name k) data σ3 = Ok (σ3, [])).
Proof.
  apply (relogin_leaves_stale_entry "A" (JStr "x") (JStr "y") "x" "y"
           two_sockets).
  - apply reachable_two_sockets.
  - reflexivity.
  - reflexivity.
  - reflexivity.
  - reflexivity.
  - discriminate.
  - discriminate.
  - discriminate.
Defined.

(** X6. Logging in under an id whose key is not among the registered ids
    and disconnecting gives [users] back as it was. *)
Theorem login_then_disconnect_restores_users socket uid key σ :
  truthy uid = true → to_key uid = Ok key →
  key ∉ snapshotIds (users σ) →
  ∃ σ2 ds,
    run [Message socket "login" uid; Disconnect socket] σ = Ok (σ2, ds)
    ∧ users σ2 = users σ.
Proof.
  intros Hu Hkey Hfresh. unfold snapshotIds in Hfresh.
  apply not_elem_of_dom in Hfresh.
  cbn [run step]. rewrite handle_login.
  rewrite (on_login_truthy socket uid key σ Hu Hkey). cbn [mbind result_bind].
  rewrite (disconnect_announced socket key); cycle 1.
  { unfold userId_of. cbn. by rewrite lookup_insert_eq. }
  { unfold userId_of. cbn. by rewrite lookup_insert_eq. }
  cbn. eexists _, _. split; [done|]. cbn.
  unfold unregister, register. case_match.
  - by apply delete_id.
  - by apply delete_insert_id.
Qed.

Lemma login_then_disconnect_restores_users_witness :
  ∃ σ2 ds,
    run [Message "C" "login" (JStr "carol"); Disconnect "C"] with_guest
    = Ok (σ2, ds)
    ∧ users σ2 = users with_guest.
Proof.
  apply (login_then_disconnect_restores_users "C" (JStr "carol") "carol"
           with_guest).
  - reflexivity.
  - reflexivity.
  - compute_decision.
Defined.

(** X7. Logging in again under the same id changes nothing: the state
    after the second login is the state after the first, and the same list
    goes out again. *)
Theorem login_is_idempotent socket uid σ σ1 ds1 :
  handle socket "login" uid σ = Ok (σ1, ds1) →
  handle socket "login" uid σ1 = Ok (σ1, ds1).
Proof.
  rewrite !handle_login. unfold on_login.
  destruct (truthy uid); cbn; [|by intros [= <- <-]].
  destruct (to_key uid) as [key|]; cbn; [|done].
  intros [= <- <-]; cbn.
  unfold register. case_match; by rewrite !insert_insert_eq.
Qed.

Lemma login_is_idempotent_witness :
  handle "A" "login" seven numbered
  = Ok (numbered, io_emit {["A"; "B"]} "user-list" (PIds {["7"]})).
Proof.
  apply (login_is_idempotent "A" seven two_sockets numbered).
  vm_compute. reflexivity.
Defined.
End login_composition.

(** * The login configuration: what is broadcast, and when *)

Section login_broadcasts.
Import Registry SocketIO Login Scenario Example.
Implicit Types (σ : server) (socket c ev key : string) (k : routed).
Implicit Types (data target blob uid arg : jsval).

Lemma on_routed_event k socket data σ σ' ds d :
  on_routed k socket data σ = Ok (σ', ds) → d ∈ ds → event d = event_name k.
Proof.
  intros Hrun Hd.
  destruct (destructure data (blob_field k)) as [blob|] eqn:Hb.
  - by destruct (on_routed_deliveries _ _ _ _ _ _ _ _ Hb Hrun Hd) as [c ->].
  - unfold on_routed in Hrun. rewrite Hb in Hrun.
    by destruct (destructure data "targetUserId").
Qed.

(** What a step does to the state and what it delivers: nothing but a
    change of the connected set, or a login, or the close of an announced
    socket, or routed events. *)
Lemma step_cases i σ σ' ds :
  step i σ = Ok (σ', ds) →
  (users σ' = users σ ∧ ds = []
   ∧ (userId σ' = userId σ ∨ ∃ s, i = Connect s
                                  ∧ userId σ' = delete s (userId σ)))
  ∨ (∃ s uid key,
       i = Message s "login" uid ∧ truthy uid = true ∧ to_key uid = Ok key
       ∧ σ' = {| connected := connected σ;
                 users := register key s (users σ);
                 userId := <[s := uid]> (userId σ) |}
       ∧ ds = io_emit (connected σ) "user-list"
                (PIds (snapshotIds (register key s (users σ)))))
  ∨ (∃ s key,
       (i = Disconnect s ∨ ∃ ev arg, i = Message s ev arg ∧ reserved ev = true)
       ∧ truthy (userId_of σ s) = true
       ∧ to_key (userId_of σ s) = Ok key
       ∧ σ' = {| connected := connected σ ∖ {[s]};
                 users := unregister key (users σ);
                 userId := userId σ |}
       ∧ ds = io_emit (connected σ ∖ {[s]}) "user-list"
                (PIds (snapshotIds (unregister key (users σ)))))
  ∨ (σ' = σ ∧ ∃ k, ∀ d, d ∈ ds → event d = event_name k).
Proof.
  intros Hstep. destruct i as [s|s ev arg|s]; cbn in Hstep.
  - unfold connect, on_connection in Hstep. injection Hstep as <- <-.
    left. repeat split; try done. right. by exists s.
  - destruct (handle_cases s ev arg σ)
      as [[Hres Hk]|[[-> Hk]|[(_ & _ & k & _ & Hk)|(_ & _ & Hk)]]];
      rewrite Hk in Hstep.
    + apply disconnect_cases in Hstep
        as [(_ & -> & ->)|(key & Hu & Hkey & -> & ->)].
      * left. repeat split; try done. by left.
      * right. right. left. exists s, key. repeat split; try done.
        right. by exists ev, arg.
    + unfold on_login in Hstep.
      destruct (truthy arg) eqn:Harg; cbn in Hstep;
        [|injection Hstep as <- <-; left; repeat split; try done; by left].
      destruct (to_key arg) as [key|] eqn:Hkey; cbn in Hstep; [|done].
      injection Hstep as <- <-. right. left. by exists s, arg, key.
    + right. right. right. split; [by apply on_routed_state in Hstep|].
      exists k. intros d Hd. by eapply on_routed_event.
    + injection Hstep as <- <-. left. repeat split; try done. by left.
  - apply disconnect_cases in Hstep
      as [(_ & -> & ->)|(key & Hu & Hkey & -> & ->)].
    + left. repeat split; try done. by left.
    + right. right. left. exists s, key. repeat split; try done. by left.
Qed.

(** X8. [users] never changes silently: whenever a step of the server
    changes [users], every socket connected after the step receives exactly
    one [user-list] with the ids [users] then holds. *)
Theorem users_change_is_broadcast i σ σ' ds c :
  step i σ = Ok (σ', ds) →
  users σ' ≠ users σ →
  c ∈ connected σ' →
  inbox c ds = [Deliver c "user-list" (PIds (snapshotIds (users σ')))].
Proof.
  intros Hstep Hch Hc.
  destruct (step_cases _ _ _ _ Hstep)
    as [(Hu & _)|[(s & uid & key & _ & _ & _ & -> & ->)
       |[(s & key & _ & _ & _ & -> & ->)|[-> _]]]]; [done| | |done].
  - by apply inbox_io_emit.
  - by apply inbox_io_emit.
Qed.

Lemma users_change_is_broadcast_witness :
  inbox "B" (io_emit {["A"; "B"]} "user-list" (PIds {["7"]}))
  = [Deliver "B" "user-list" (PIds (snapshotIds (users numbered)))].
Proof.
  apply (users_change_is_broadcast (Message "A" "login" seven)
           two_sockets numbered).
  - vm_compute. reflexivity.
  - vm_compute. discriminate.
  - vm_compute. reflexivity.
Defined.

(** X9. No stale list goes out: every [user-list] a step delivers carries
    the ids of [users] as the step leaves it, and no client event can make
    the server deliver a [user-list] of the client's making. *)
Theorem user_list_is_current i σ σ' ds d :
  step i σ = Ok (σ', ds) →
  d ∈ ds → event d = "user-list" →
  argument d = PIds (snapshotIds (users σ')).
Proof.
  intros Hstep Hd Hev.
  destruct (step_cases _ _ _ _ Hstep)
    as [(_ & -> & _)|[(s & uid & key & _ & _ & _ & -> & ->)
       |[(s & key & _ & _ & _ & -> & ->)|[-> [k Hk]]]]].
  - by apply elem_of_nil in Hd.
  - by apply elem_of_io_emit in Hd as (c & -> & _).
  - by apply elem_of_io_emit in Hd as (c & -> & _).
  - rewrite (Hk d Hd) in Hev. by destruct k.
Qed.

Lemma user_list_is_current_witness :
  argument (Deliver "B" "user-list" (PIds {["7"]}))
  = PIds (snapshotIds (users numbered)).
Proof.
  apply (user_list_is_current (Message "A" "login" seven)
           two_sockets numbered
           (io_emit {["A"; "B"]} "user-list" (PIds {["7"]}))).
  - vm_compute. reflexivity.
  - vm_compute. apply list_elem_of_further, list_elem_of_here.
  - reflexivity.
Defined.

(** X20. The [userId] of a socket is its own: a step changes it only if
    the step is a [login] of that very socket with a truthy id, which
    becomes the [userId], or the arrival of a new connection with that
    socket id.  No message of another client and no routed payload changes
    the identity the server attaches to a socket's events. *)
Theorem userId_changed_only_by_owner i σ σ' ds socket :
  step i σ = Ok (σ', ds) →
  userId_of σ' socket ≠ userId_of σ socket →
  i = Connect socket
  ∨ ∃ uid, i = Message socket "login" uid
           ∧ truthy uid = true ∧ userId_of σ' socket = uid.
Proof.
  intros Hstep Hch.
  destruct (step_cases _ _ _ _ Hstep)
    as [(_ & _ & [Hid|(s & -> & Hid)])
       |[(s & uid & key & -> & Hu & _ & -> & _)
       |[(s & key & _ & _ & _ & -> & _)|[-> _]]]]; try done.
  - exfalso. apply Hch. unfold userId_of. by rewrite Hid.
  - destruct (decide (s = socket)) as [->|Hne]; [by left|].
    exfalso. apply Hch. unfold userId_of. rewrite Hid.
    by rewrite lookup_delete_ne.
  - destruct (decide (s = socket)) as [->|Hne].
    + right. exists uid. split; [done|]. split; [done|].
      unfold userId_of. cbn. by rewrite lookup_insert_eq.
    + exfalso. apply Hch. unfold userId_of. cbn.
      by rewrite lookup_insert_ne.
Qed.

Lemma userId_changed_only_by_owner_witness :
  Message "A" "login" seven = Connect "A"
  ∨ ∃ uid, Message "A" "login" seven = Message "A" "login" uid
           ∧ truthy uid = true ∧ userId_of numbered "A" = uid.
Proof.
  apply (userId_changed_only_by_owner (Message "A" "login" seven)
           two_sockets numbered
           (io_emit {["A"; "B"]} "user-list" (PIds {["7"]})) "A").
  - vm_compute. reflexivity.
  - vm_compute. discriminate.
Defined.

(** X21. What [users] reads for an id changes in two ways only: a [login]
    with a truthy id of that key binds the key to the socket that logged
    in, and the close of a socket whose [userId] has that key (a
    disconnect, or a packet with a reserved name) removes the entry,
    whoever the key was bound to.  Nothing else adds, moves or removes an
    entry. *)
Theorem users_entry_changed_only_by_login_or_close i σ σ' ds id :
  step i σ = Ok (σ', ds) →
  lookup id (users σ') ≠ lookup id (users σ) →
  (∃ s uid, i = Message s "login" uid ∧ truthy uid = true
            ∧ to_key uid = Ok id ∧ lookup id (users σ') = Own s)
  ∨ (∃ s, (i = Disconnect s
           ∨ ∃ ev arg, i = Message s ev arg ∧ reserved ev = true)
          ∧ truthy (userId_of σ s) = true
          ∧ to_key (userId_of σ s) = Ok id
          ∧ (id ∉ snapshotIds (users σ'))).
Proof.
  intros Hstep Hch.
  destruct (step_cases _ _ _ _ Hstep)
    as [(Hu & _)|[(s & uid & key & -> & Hu & Hkey & -> & _)
       |[(s & key & Hi & Hu & Hkey & -> & _)|[-> _]]]]; [|..|done].
  - by rewrite Hu in Hch.
  - left. exists s, uid. cbn in *.
    destruct (decide (key = id)) as [<-|Hk].
    + repeat split; try done. apply lookup_own.
      unfold register in *. case_match; [done|]. apply lookup_insert_eq.
    + exfalso. apply Hch. unfold lookup. by rewrite register_other.
  - right. exists s. cbn in *.
    destruct (decide (key = id)) as [<-|Hk].
    + repeat split; try done. apply not_elem_of_dom, lookup_delete_eq.
    + exfalso. apply Hch. unfold lookup, unregister.
      by rewrite lookup_delete_ne.
Qed.

Lemma users_entry_changed_only_by_login_or_close_witness :
  (∃ s uid, Disconnect "B" = Message s "login" uid ∧ truthy uid = true
            ∧ to_key uid = Ok "bob"
            ∧ lookup "bob" (users (exec [Disconnect "B"] two_users)) = Own s)
  ∨ (∃ s, (Disconnect "B" = Disconnect s
           ∨ ∃ ev arg, Disconnect "B" = Message s ev arg ∧ reserved ev = true)
          ∧ truthy (userId_of two_users s) = true
          ∧ to_key (userId_of two_users s) = Ok "bob"
          ∧ ("bob" ∉ snapshotIds (users (exec [Disconnect "B"] two_users)))).
Proof.
  apply (users_entry_changed_only_by_login_or_close (Disconnect "B")
           two_users (exec [Disconnect "B"] two_users)
           (io_emit {["A"]} "user-list" (PIds {["alice"]})) "bob").
  - vm_compute. reflexivity.
  - vm_compute. discriminate.
Defined.

Lemma guest_messages_then_disconnect socket (ms : list (string * jsval)) σ σ' ds :
  Forall (λ m, m.1 ≠ "login") ms →
  userId σ !! socket = None →
  run (((λ m, Message socket m.1 m.2) <$> ms) ++ [Disconnect socket]) σ
  = Ok (σ', ds) →
  users σ' = users σ ∧ ∀ d, d ∈ ds → event d ≠ "user-list".
Proof.
  intros Hms. revert σ ds.
  induction Hms as [|[ev arg] ms Hne _ IH]; intros σ ds Hid Hrun.
  - cbn in Hrun.
    destruct (disconnect socket σ) as [[σ1 ds1]|] eqn:Hd; [|done].
    cbn in Hrun. injection Hrun as <- <-.
    apply disconnect_cases in Hd as [(_ & -> & ->)|(key & Hu & _)].
    + split; [done|]. by intros d ?%elem_of_nil.
    + unfold userId_of in Hu. by rewrite Hid in Hu.
  - cbn in Hrun, Hne.
    destruct (handle socket ev arg σ) as [[σ1 ds1]|] eqn:Hh; [|done].
    cbn in Hrun.
    destruct (run _ σ1) as [[σ2 ds2]|] eqn:Hrest; [|done].
    cbn in Hrun. injection Hrun as <- <-.
    destruct (step_cases (Message socket ev arg) _ _ _ Hh)
      as [(Hu & -> & [Hi|(s & ? & _)])|[(s & uid & key & ? & _)
         |[(s & key & Hi & Hu & _)|[-> [k Hk]]]]]; try done.
    + rewrite <- Hi in Hid. destruct (IH _ _ Hid Hrest) as [Hu' Hds].
      split; [congruence|exact Hds].
    + by simplify_eq.
    + destruct Hi as [?|(ev' & arg' & ? & _)]; [done|]. simplify_eq.
      unfold userId_of in Hu. by rewrite Hid in Hu.
    + destruct (IH _ _ Hid Hrest) as [Hu' Hds]. split; [done|].
      intros d [Hd|Hd]%elem_of_app; [|by apply Hds].
      rewrite (Hk d Hd). by destruct k.
Qed.

(** X10. A socket that connects, sends whatever it likes except a
    [login], and disconnects is never seen by the registry: [users] is as
    before, and no [user-list] is sent, neither on the way nor when it
    leaves. *)
Theorem guest_session_is_silent socket (ms : list (string * jsval)) σ σ' ds :
  Forall (λ m, m.1 ≠ "login") ms →
  run (Connect socket
         :: ((λ m, Message socket m.1 m.2) <$> ms) ++ [Disconnect socket]) σ
  = Ok (σ', ds) →
  users σ' = users σ ∧ ∀ d, d ∈ ds → event d ≠ "user-list".
Proof.
  intros Hms Hrun.
  change (run (Connect socket :: ?l) σ)
    with ('(σ2, ds2) ← run l (accept socket σ); Ok (σ2, [] ++ ds2)) in Hrun.
  destruct (run _ (accept socket σ)) as [[σ2 ds2]|] eqn:Hrest; [|done].
  cbn in Hrun. injection Hrun as <- <-.
  apply (guest_messages_then_disconnect socket ms (accept socket σ)); [done| |done].
  cbn. apply lookup_delete_eq.
Qed.

Lemma guest_session_is_silent_witness :
  users (exec (Connect "C"
                 :: ((λ m, Message "C" m.1 m.2) <$> guest_messages)
                 ++ [Disconnect "C"]) two_users)
  = users two_users
  ∧ ∀ d,
      d ∈ [Deliver "B" "offer"
             (PVal (JObj [("fromUserId", JUndefined); ("offer", JStr "sdp1")]))] →
      event d ≠ "user-list".
Proof.
  apply (guest_session_is_silent "C" guest_messages two_users).
  - repeat constructor; discriminate.
  - vm_compute. reflexivity.
Defined.
End login_broadcasts.

(** * The discovery configuration: signals and notices *)

Section discovery_signals.
Import Registry SocketIO Discovery Scenario Example.
Implicit Types (σ : server) (socket c : string) (data : jsval).

(** The three names of the pattern are read from the same payload. *)
Lemma signal_fields data to :
  destructure data "to" = Ok to →
  ∃ from signal,
    destructure data "from" = Ok from ∧ destructure data "signal" = Ok signal.
Proof.
  intros Hto.
  destruct (destructure_total data _ "from" _ Hto) as [from Hfrom].
  destruct (destructure_total data _ "signal" _ Hto) as [signal Hsig].
  by exists from, signal.
Qed.

(** X11. The [signal] handler, in the discovery and in the relay
    configuration, raises in three cases only: the event came without a
    payload object, or the [from] or the [to] of the payload does not
    convert to a string for the log (an object with an own [toString]). *)
Theorem signal_raises_iff socket data σ :
  (on_signal socket data σ = Throw
   ↔ data = JUndefined ∨ data = JNull
     ∨ (∃ from, destructure data "from" = Ok from ∧ to_key from = Throw)
     ∨ (∃ to, destructure data "to" = Ok to ∧ to_key to = Throw))
  ∧ (Relay.on_signal socket data σ = Throw
     ↔ data = JUndefined ∨ data = JNull
       ∨ (∃ from, destructure data "from" = Ok from ∧ to_key from = Throw)
       ∨ (∃ to, destructure data "to" = Ok to ∧ to_key to = Throw)).
Proof.
  unfold on_signal, Relay.on_signal.
  destruct (destructure data "to") as [to|] eqn:Hto.
  - destruct (signal_fields data to Hto) as (from & signal & Hfrom & Hsig).
    rewrite Hfrom, Hsig. cbn [mbind result_bind].
    destruct (to_key from) eqn:Hkf; cbn [mbind result_bind];
      [destruct (to_key to) eqn:Hkt; cbn [mbind result_bind]|].
    + split; (split; [done|]);
        (intros [->|[->|[(f & [= <-] & ?)|(t & [= <-] & ?)]]];
         [done|done|congruence|congruence]).
    + split; (split; [|done]); intros _; right; right; right; by exists to.
    + split; (split; [|done]); intros _; right; right; left; by exists from.
  - split; (split; [|done]); intros _; destruct data; try done; auto.
Qed.

(** X12. A [signal] whose [to] is the id of a connected socket and whose
    [from] converts to a string is delivered to that socket once, the
    sender itself if it names itself, with the [from] and the [signal] of
    the payload as they came; the state is unchanged. *)
Theorem signal_reaches_named_socket socket data σ c from text signal :
  destructure data "to" = Ok (JStr c) →
  destructure data "from" = Ok from →
  destructure data "signal" = Ok signal →
  to_key from = Ok text →
  c ∈ connected σ →
  on_signal socket data σ
  = Ok (σ, [Deliver c "signal"
              (PVal (JObj [("from", from); ("signal", signal)]))]).
Proof.
  intros Hto Hfrom Hsig Htext Hc. unfold on_signal.
  rewrite Hto, Hfrom, Hsig. cbn [mbind result_bind].
  rewrite Htext. cbn. by rewrite decide_True.
Qed.

Lemma signal_reaches_named_socket_witness :
  on_signal "A" (JObj [("to", JStr "A"); ("signal", seven)]) two_peers
  = Ok (two_peers,
        [Deliver "A" "signal"
           (PVal (JObj [("from", JUndefined); ("signal", seven)]))]).
Proof.
  apply (signal_reaches_named_socket "A"
           (JObj [("to", JStr "A"); ("signal", seven)]) two_peers "A"
           JUndefined "undefined" seven).
  - reflexivity.
  - reflexivity.
  - reflexivity.
  - reflexivity.
  - vm_compute. reflexivity.
Defined.

(** X13. A [signal] whose [from] and [to] convert to strings and whose
    [to] is not the id of a connected socket (a socket that left, a number,
    a boolean, a plain object, a missing [to]) is dropped: nothing is
    delivered, nothing is raised, the state is unchanged. *)
Theorem signal_unknown_target_dropped socket data σ to from room text :
  destructure data "to" = Ok to →
  destructure data "from" = Ok from →
  to_key to = Ok room → to_key from = Ok text →
  (∀ c, to = JStr c → c ∉ connected σ) →
  on_signal socket data σ = Ok (σ, []).
Proof.
  intros Hto Hfrom Hroom Htext Hc.
  destruct (destructure_total data _ "signal" _ Hto) as [signal Hsig].
  unfold on_signal. rewrite Hto, Hfrom, Hsig. cbn [mbind result_bind].
  rewrite Htext. cbn [mbind result_bind]. rewrite Hroom.
  cbn [mbind result_bind].
  destruct to as [| | | |c|]; cbn; try done.
  rewrite decide_False; [done|]. by apply Hc.
Qed.

Lemma signal_unknown_target_dropped_witness :
  on_signal "A" (JStr "hello") two_peers = Ok (two_peers, []).
Proof.
  apply (signal_unknown_target_dropped "A" (JStr "hello") two_peers
           JUndefined JUndefined "undefined" "undefined").
  - reflexivity.
  - reflexivity.
  - reflexivity.
  - reflexivity.
  - discriminate.
Defined.

(** X14. When a socket connects, every other connected socket receives
    exactly one [user-joined] with the id of the newcomer, and the newcomer
    receives no [user-joined]. *)
Theorem discovery_connect_notifies_others socket σ c :
  c ∈ connected σ → c ≠ socket →
  ∃ σ' ds,
    connect socket σ = Ok (σ', ds)
    ∧ inbox c ds = [Deliver c "user-joined" (PVal (JStr socket))]
    ∧ ∀ d, d ∈ inbox socket ds → event d ≠ "user-joined".
Proof.
  intros Hc Hne. eexists _, _. split; [reflexivity|]. split.
  - rewrite inbox_app. unfold inbox at 1. cbn. rewrite decide_False by done.
    unfold broadcast_emit. cbn. apply inbox_io_emit.
    apply elem_of_without; [|done]. apply elem_of_union. by right.
  - intros d. rewrite inbox_app. unfold broadcast_emit.
    rewrite (inbox_io_emit_absent _ _ _ socket) by apply not_elem_of_without.
    rewrite app_nil_r. unfold inbox, socket_emit. cbn.
    rewrite decide_True by done. by intros ->%list_elem_of_singleton.
Qed.

Lemma discovery_connect_notifies_others_witness :
  ∃ σ' ds,
    connect "C" two_peers = Ok (σ', ds)
    ∧ inbox "B" ds = [Deliver "B" "user-joined" (PVal (JStr "C"))]
    ∧ ∀ d, d ∈ inbox "C" ds → event d ≠ "user-joined".
Proof.
  apply (discovery_connect_notifies_others "C" two_peers "B").
  - vm_compute. reflexivity.
  - discriminate.
Defined.

(** X15. When a socket disconnects, every socket that remains receives
    exactly one [user-left] with the socket id that left, and the socket
    that left receives nothing. *)
Theorem discovery_disconnect_notifies_remaining socket σ c :
  c ∈ connected σ → c ≠ socket →
  ∃ σ' ds,
    disconnect socket σ = Ok (σ', ds)
    ∧ connected σ' = connected σ ∖ {[socket]}
    ∧ inbox c ds = [Deliver c "user-left" (PVal (JStr socket))]
    ∧ inbox socket ds = [].
Proof.
  intros Hc Hne. eexists _, _. split; [reflexivity|]. cbn.
  split; [done|]. split.
  - by apply inbox_io_emit, elem_of_without.
  - apply inbox_io_emit_absent, not_elem_of_without.
Qed.

Lemma discovery_disconnect_notifies_remaining_witness :
  ∃ σ' ds,
    disconnect "A" two_peers = Ok (σ', ds)
    ∧ connected σ' = connected two_peers ∖ {["A"]}
    ∧ inbox "B" ds = [Deliver "B" "user-left" (PVal (JStr "A"))]
    ∧ inbox "A" ds = [].
Proof.
  apply (discovery_disconnect_notifies_remaining "A" two_peers "B").
  - vm_compute. reflexivity.
  - discriminate.
Defined.
End discovery_signals.

(** * The discovery configuration: what a client knows of its peers *)

Section discovery_peers.
Import Registry SocketIO Discovery DiscoveryRun Scenario Example.
Implicit Types (σ : server) (socket c : string) (data : jsval).
Implicit Types (ds : list delivery) (peers : gset string).

Lemma peers_of_app c ds1 ds2 :
  peers_of c (ds1 ++ ds2) = foldl learn (peers_of c ds1) (inbox c ds2).
Proof. unfold peers_of. by rewrite inbox_app, foldl_app. Qed.

(** A [signal] teaches nothing about who is present. *)
Lemma learn_signals peers ds :
  Forall (λ d, event d = "signal") ds → foldl learn peers ds = peers.
Proof.
  induction 1 as [|d ds Hd _ IH]; [done|]. cbn. rewrite <- IH at 2. f_equal.
  unfold learn. rewrite Hd. cbn. by repeat case_match.
Qed.

Lemma on_signal_events socket data σ σ' ds :
  on_signal socket data σ = Ok (σ', ds) →
  σ' = σ ∧ Forall (λ d, event d = "signal") ds.
Proof.
  unfold on_signal.
  destruct (destructure data "to") as [to|]; [|done].
  destruct (destructure data "from") as [from|]; [|done].
  destruct (destructure data "signal") as [signal|]; [|done].
  cbn [mbind result_bind].
  destruct (to_key from); [|done]. cbn [mbind result_bind].
  destruct (to_key to); [|done]. cbn [mbind result_bind].
  intros [= <- <-]. split; [done|].
  unfold io_to_emit. repeat case_match; by repeat constructor.
Qed.

Lemma peers_consistent_connect s σ pre :
  peers_consistent σ pre →
  peers_consistent (accept s σ)
    (pre ++ socket_emit s "users-present"
              (PIds (filter (λ id, id ≠ s) ({[s]} ∪ connected σ)))
         ++ broadcast_emit ({[s]} ∪ connected σ) s "user-joined"
              (PVal (JStr s))).
Proof.
  intros Hinv c Hc. cbn [connected accept] in *.
  rewrite peers_of_app, inbox_app. unfold broadcast_emit.
  destruct (decide (c = s)) as [->|Hne].
  - rewrite (inbox_io_emit_absent _ _ _ s) by apply not_elem_of_without.
    unfold inbox, socket_emit. cbn. rewrite decide_True by done. cbn.
    apply set_eq. intros x.
    rewrite elem_of_filter, elem_of_difference, elem_of_singleton. tauto.
  - unfold inbox at 1. cbn. rewrite decide_False by done. cbn.
    rewrite inbox_io_emit by by apply elem_of_without.
    cbn. apply elem_of_union in Hc as [?%elem_of_singleton|Hc]; [done|].
    rewrite (Hinv c Hc). apply set_eq. intros x.
    rewrite !elem_of_union, !elem_of_difference, elem_of_union,
      !elem_of_singleton.
    split; [|tauto]. intros [->|[? ?]]; [|tauto]. split; [by left|congruence].
Qed.

Lemma peers_consistent_disconnect s σ pre :
  peers_consistent σ pre →
  peers_consistent (close s σ)
    (pre ++ io_emit (connected σ ∖ {[s]}) "user-left" (PVal (JStr s))).
Proof.
  intros Hinv c Hc. cbn [connected close] in *.
  rewrite peers_of_app, inbox_io_emit by done. cbn.
  apply elem_of_difference in Hc as [Hc Hne]. rewrite (Hinv c Hc).
  apply set_eq. intros x. rewrite !elem_of_difference. tauto.
Qed.

Lemma peers_consistent_step i σ σ' pre ds :
  peers_consistent σ pre → step i σ = Ok (σ', ds) →
  peers_consistent σ' (pre ++ ds).
Proof.
  intros Hinv Hstep.
  destruct i as [s|s ev arg|s]; cbn [step] in Hstep.
  - unfold connect, on_connection in Hstep. injection Hstep as <- <-.
    by apply peers_consistent_connect.
  - unfold handle in Hstep. destruct (reserved ev).
    { unfold disconnect, on_disconnect in Hstep. injection Hstep as <- <-.
      by apply peers_consistent_disconnect. }
    destruct (String.eqb ev "signal").
    + apply on_signal_events in Hstep as [-> Hev]. intros c Hc.
      rewrite peers_of_app, learn_signals; [by apply Hinv|].
      unfold inbox. apply Forall_forall. intros d [_ ?]%list_elem_of_filter.
      by eapply Forall_forall in Hev.
    + injection Hstep as <- <-. by rewrite app_nil_r.
  - unfold disconnect, on_disconnect in Hstep. injection Hstep as <- <-.
    by apply peers_consistent_disconnect.
Qed.

Lemma peers_consistent_run inputs σ σ' pre ds :
  peers_consistent σ pre → run inputs σ = Ok (σ', ds) →
  peers_consistent σ' (pre ++ ds).
Proof.
  revert σ pre ds. induction inputs as [|i rest IH]; intros σ pre ds Hinv Hrun.
  - cbn in Hrun. injection Hrun as <- <-. by rewrite app_nil_r.
  - cbn in Hrun.
    destruct (step i σ) as [[σ1 ds1]|] eqn:Hstep; [|done]. cbn in Hrun.
    destruct (run rest σ1) as [[σ2 ds2]|] eqn:Hrest; [|done]. cbn in Hrun.
    injection Hrun as <- <-. rewrite app_assoc.
    eapply IH; [|done]. by eapply peers_consistent_step.
Qed.

(** X16. The notices keep every client up to date.  After any run of the
    discovery server from its start, whatever connects, signals and
    disconnects in whatever order, a connected socket that starts from its
    [users-present] list, adds the id of each [user-joined] and removes the
    id of each [user-left] knows exactly the other connected sockets. *)
Theorem discovery_peers_up_to_date inputs σ ds c :
  run inputs init = Ok (σ, ds) →
  c ∈ connected σ →
  peers_of c ds = connected σ ∖ {[c]}.
Proof.
  intros Hrun Hc.
  apply (peers_consistent_run inputs init σ [] ds); [|done..].
  intros c' Hc'. by apply elem_of_empty in Hc'.
Qed.

Lemma discovery_peers_up_to_date_witness :
  peers_of "C" comings_and_goings_end.2
  = connected comings_and_goings_end.1 ∖ {["C"]}.
Proof.
  apply (discovery_peers_up_to_date comings_and_goings).
  - vm_compute. reflexivity.
  - vm_compute. reflexivity.
Defined.
End discovery_peers.

(** * The relay configuration *)

Section relay_facts.
Import Registry SocketIO Scenario Example.
Implicit Types (σ : Discovery.server) (socket c : string) (data : jsval).

(** X17. In the relay configuration a [signal] never comes back to its
    sender: when its [from] converts to a string, addressed to another
    connected socket it is delivered to that socket once, addressed to the
    sender's own id it is dropped. *)
Theorem relay_signal_skips_sender socket data σ c from text signal :
  destructure data "to" = Ok (JStr c) →
  destructure data "from" = Ok from →
  destructure data "signal" = Ok signal →
  to_key from = Ok text →
  c ∈ Discovery.connected σ →
  Relay.on_signal socket data σ
  = Ok (σ, if decide (c = socket) then []
           else [Deliver c "signal"
                   (PVal (JObj [("from", from); ("signal", signal)]))]).
Proof.
  intros Hto Hfrom Hsig Htext Hc. unfold Relay.on_signal.
  rewrite Hto, Hfrom, Hsig. cbn [mbind result_bind].
  rewrite Htext. cbn. unfold Relay.socket_to_emit. cbn.
  destruct (decide (c = socket)) as [->|Hne].
  - rewrite decide_False; [done|]. apply not_elem_of_without.
  - rewrite decide_True; [done|]. by apply elem_of_without.
Qed.

Lemma relay_signal_skips_sender_witness :
  Relay.on_signal "A" (JObj [("to", JStr "A"); ("signal", seven)]) two_peers
  = Ok (two_peers, [])
  ∧ Relay.on_signal "A" spoofed_signal two_peers
    = Ok (two_peers,
          [Deliver "B" "signal"
             (PVal (JObj [("from", JStr "mallory"); ("signal", JStr "sdp")]))]).
Proof.
  split.
  - apply (relay_signal_skips_sender "A"
             (JObj [("to", JStr "A"); ("signal", seven)]) two_peers "A"
             JUndefined "undefined" seven); [reflexivity..|by vm_compute].
  - apply (relay_signal_skips_sender "A" spoofed_signal two_peers "B"
             (JStr "mallory") "mallory" (JStr "sdp"));
      [reflexivity..|by vm_compute].
Defined.

(** X18. In the relay configuration a socket that connects is told
    nothing, and every other connected socket receives exactly one
    [user-joined] with the object [{ userId }] of the newcomer. *)
Theorem relay_connect_notifies_others socket σ c :
  c ∈ Discovery.connected σ → c ≠ socket →
  ∃ σ' ds,
    Relay.connect socket σ = Ok (σ', ds)
    ∧ inbox c ds
      = [Deliver c "user-joined" (PVal (JObj [("userId", JStr socket)]))]
    ∧ inbox socket ds = [].
Proof.
  intros Hc Hne. eexists _, _. split; [reflexivity|].
  unfold broadcast_emit. cbn. split.
  - apply inbox_io_emit, elem_of_without; [|done]. apply elem_of_union.
    by right.
  - apply inbox_io_emit_absent, not_elem_of_without.
Qed.

Lemma relay_connect_notifies_others_witness :
  ∃ σ' ds,
    Relay.connect "C" two_peers = Ok (σ', ds)
    ∧ inbox "A" ds
      = [Deliver "A" "user-joined" (PVal (JObj [("userId", JStr "C")]))]
    ∧ inbox "C" ds = [].
Proof.
  apply (relay_connect_notifies_others "C" two_peers "A").
  - vm_compute. reflexivity.
  - discriminate.
Defined.

(** X19. In the relay configuration, when a socket disconnects every
    socket that remains receives exactly one [user-left] with the object
    [{ userId }] of the socket that left, which itself receives nothing. *)
Theorem relay_disconnect_notifies_remaining socket σ c :
  c ∈ Discovery.connected σ → c ≠ socket →
  ∃ σ' ds,
    Relay.disconnect socket σ = Ok (σ', ds)
    ∧ Discovery.connected σ' = Discovery.connected σ ∖ {[socket]}
    ∧ inbox c ds
      = [Deliver c "user-left" (PVal (JObj [("userId", JStr socket)]))]
    ∧ inbox socket ds = [].
Proof.
  intros Hc Hne. eexists _, _. split; [reflexivity|]. cbn.
  split; [done|]. split.
  - by apply inbox_io_emit, elem_of_without.
  - apply inbox_io_emit_absent, not_elem_of_without.
Qed.

Lemma relay_disconnect_notifies_remaining_witness :
  ∃ σ' ds,
    Relay.disconnect "B" two_peers = Ok (σ', ds)
    ∧ Discovery.connected σ' = Discovery.connected two_peers ∖ {["B"]}
    ∧ inbox "A" ds
      = [Deliver "A" "user-left" (PVal (JObj [("userId", JStr "B")]))]
    ∧ inbox "B" ds = [].
Proof.
  apply (relay_disconnect_notifies_remaining "B" two_peers "A").
  - vm_compute. reflexivity.
  - discriminate.
Defined.
End relay_facts.
